(** * Robot reservation manager

    A shallow embedding of [robot_manager.ts] and [csv_parser.ts]: the
    JavaScript values the script manipulates, the parts of [Date] it calls,
    the manager's methods as computations over an explicit process state
    (storage file, clock, console, the in-memory record list), and the CLI
    dispatcher [main]. *)

From Stdlib Require Import ZArith Ascii String DecimalString DecimalZ DecimalPos Lia.
From stdpp Require Import base option list strings numbers.

Local Open Scope Z_scope.

(** ** JavaScript values *)

(** Numbers are IEEE doubles in the source.  The model keeps the integers
    (exact in the range of epoch milliseconds) and [NaN]; fractions and
    infinities are outside it.  Where a number is printed or read, an
    integer beyond [2 ^ 53] stands for the double nearest to it. *)
Inductive num := Fin (z : Z) | NaN.

(** The values a CSV cell, a record field or a command-line argument can
    hold. *)
Inductive jsval := VUndef | VStr (s : string) | VNum (n : num).

#[global] Instance num_eq_dec : EqDecision num.
Proof. solve_decision. Defined.

#[global] Instance jsval_eq_dec : EqDecision jsval.
Proof. solve_decision. Defined.

(** [ToBoolean]: [undefined], the empty string, [0] and [NaN] are falsy. *)
Definition truthy (v : jsval) : bool :=
  match v with
  | VUndef => false
  | VStr s => negb (String.eqb s "")
  | VNum (Fin z) => negb (z =? 0)
  | VNum NaN => false
  end.

(** [v || undefined] *)
Definition or_undefined (v : jsval) : jsval :=
  if truthy v then v else VUndef.

(** [a === b] *)
Definition strict_eq (a b : jsval) : bool :=
  match a, b with
  | VUndef, VUndef => true
  | VStr s, VStr t => String.eqb s t
  | VNum (Fin x), VNum (Fin y) => x =? y
  | _, _ => false
  end.

(** [SameValueZero], the comparison of [Array.prototype.includes]:
    like [===] except that [NaN] equals itself. *)
Definition same_value_zero (a b : jsval) : bool :=
  match a, b with
  | VNum NaN, VNum NaN => true
  | _, _ => strict_eq a b
  end.

(** The double nearest to a non-negative integer, ties to the even
    significand (the rounding of ECMA-262, 6.1.6.1); [None] when it rounds
    to [+∞].  Up to [2 ^ 53] every integer is a double. *)
Definition nearest_double (x : Z) : option Z :=
  if x <? 2 ^ 53 then Some x
  else
    let e := Z.log2 x - 52 in
    let q := x / 2 ^ e in
    let r := x mod 2 ^ e in
    let half := 2 ^ (e - 1) in
    let q := if r <? half then q
             else if half <? r then q + 1
             else if Z.even q then q else q + 1 in
    let y := q * 2 ^ e in
    if y <? 2 ^ 1024 then Some y else None.

(** The integers that are numbers of JavaScript. *)
Definition is_double (z : Z) : bool :=
  bool_decide (nearest_double (Z.abs z) = Some (Z.abs z)).

(** An integer in decimal digits, with a leading minus sign. *)
Definition decimal_digits (z : Z) : string := NilZero.string_of_int (Z.to_int z).

(** A decimal of [k] significant digits that rounds to the double [x]: of
    the two that enclose [x], the one nearer to [x] (the even one on a tie)
    among those that do. *)
Definition with_digits (x k : Z) : option Z :=
  let p := 10 ^ (Z.of_nat (String.length (decimal_digits x)) - k) in
  let lo := x / p * p in
  let hi := lo + p in
  let rounds_to_x v := bool_decide (nearest_double v = Some x) in
  match rounds_to_x lo, rounds_to_x hi with
  | true, true =>
      Some (if x - lo <? hi - x then lo
            else if hi - x <? x - lo then hi
            else if Z.even (lo / p) then lo else hi)
  | true, false => Some lo
  | false, true => Some hi
  | false, false => None
  end.

(** The first of [with_digits x k], [with_digits x (k + 1)], ... that
    exists, within [fuel] tries; [x] itself after them. *)
Fixpoint shortest_from (fuel : nat) (x k : Z) : Z :=
  match fuel with
  | O => x
  | S fuel' =>
      match with_digits x k with
      | Some v => v
      | None => shortest_from fuel' x (k + 1)
      end
  end.

(** The decimal [s × 10 ^ (n - k)] of [Number::toString] (ECMA-262,
    6.1.6.1.20, step 5) for a double [x] above [2 ^ 53]: as few significant
    digits as round to [x]; seventeen always do. *)
Definition shortest (x : Z) : Z := shortest_from 17 x 1.

(** [v] without its trailing zeros, and how many there were. *)
Fixpoint strip_zeros (fuel : nat) (v j : Z) : Z * Z :=
  match fuel with
  | O => (v, j)
  | S fuel' => if v mod 10 =? 0 then strip_zeros fuel' (v / 10) (j + 1) else (v, j)
  end.

(** The exponent notation of a decimal of more than 21 digits: the first
    significant digit, the others after a point, and the exponent. *)
Definition exponential (v : Z) : string :=
  let '(s, j) := strip_zeros (Z.to_nat (Z.log2 v)) v 0 in
  match decimal_digits s with
  | String d rest =>
      String d (match rest with EmptyString => "" | _ => "." +:+ rest end)
      +:+ "e+" +:+ decimal_digits (Z.of_nat (String.length rest) + j)
  | EmptyString => ""
  end.

(** [Number::toString] on the modelled numbers.  An integer up to [2 ^ 53]
    is printed in decimal digits; a larger one as the double nearest to it
    is: its shortest decimal, in digits below [10 ^ 21] and in exponent
    notation from there on. *)
Definition number_to_string (n : num) : string :=
  match n with
  | Fin z =>
      if Z.abs z <=? 2 ^ 53 then decimal_digits z
      else
        match nearest_double (Z.abs z) with
        | Some x =>
            let v := shortest x in
            (if z <? 0 then "-" else "")
            +:+ (if v <? 10 ^ 21 then decimal_digits v else exponential v)
        | None => if z <? 0 then "-Infinity" else "Infinity"
        end
  | NaN => "NaN"
  end.

(** [ToString], as applied by template literals. *)
Definition to_string (v : jsval) : string :=
  match v with
  | VUndef => "undefined"
  | VStr s => s
  | VNum n => number_to_string n
  end.

(** [a + b] on numbers. *)
Definition num_add (a b : num) : num :=
  match a, b with
  | Fin x, Fin y => Fin (x + y)
  | _, _ => NaN
  end.

(** [a > b] on numbers: false as soon as one side is [NaN]. *)
Definition num_gt (a b : num) : bool :=
  match a, b with
  | Fin x, Fin y => y <? x
  | _, _ => false
  end.

(** ** Objects

    A plain object is its list of own properties in insertion order. *)
Abbreviation obj := (list (string * jsval)).

Fixpoint obj_get (k : string) (o : obj) : jsval :=
  match o with
  | [] => VUndef
  | (k', v) :: o' => if String.eqb k' k then v else obj_get k o'
  end.

(** [o[k] = v]: overwrites in place, or appends a new property. *)
Fixpoint obj_set (k : string) (v : jsval) (o : obj) : obj :=
  match o with
  | [] => [(k, v)]
  | (k', v') :: o' =>
      if String.eqb k' k then (k', v) :: o' else (k', v') :: obj_set k v o'
  end.

(** The rest pattern [{k1, ..., kn, ...rest}]: the properties not named. *)
Definition obj_rest (ks : list string) (o : obj) : obj :=
  filter (λ kv, kv.1 ∉ ks) o.

(** ** The fragment of [Date] the manager uses (ECMA-262, 21.4.1) *)

Definition msPerSecond : Z := 1000.
Definition msPerMinute : Z := 60000.
Definition msPerHour : Z := 3600000.
Definition msPerDay : Z := 86400000.

Definition Day (t : Z) : Z := t / msPerDay.
Definition HourFromTime (t : Z) : Z := (t / msPerHour) mod 24.
Definition MinFromTime (t : Z) : Z := (t / msPerMinute) mod 60.
Definition SecFromTime (t : Z) : Z := (t / msPerSecond) mod 60.
Definition msFromTime (t : Z) : Z := t mod msPerSecond.

Definition MakeTime (hour min sec ms : Z) : Z :=
  hour * msPerHour + min * msPerMinute + sec * msPerSecond + ms.

Definition MakeDate (day time : Z) : Z := day * msPerDay + time.

Definition TimeClip (t : Z) : num :=
  if Z.abs t <=? 8640000000000000 then Fin t else NaN.

Definition pad2 (n : Z) : string :=
  if n <? 10 then "0" +:+ number_to_string (Fin n) else number_to_string (Fin n).

Section Date.
(** The host's time zone: [LocalTZA t isUTC] is the offset of local time
    from UTC, in milliseconds, at the instant [t] (a UTC time value when
    [isUTC], a local one otherwise).  [Date_parse] is [Date.parse]. *)
Variable LocalTZA : Z → bool → Z.
Variable Date_parse : string → num.

Definition LocalTime (t : Z) : Z := t + LocalTZA t true.
Definition UTC (t : Z) : Z := t - LocalTZA t false.

(** [new Date(value)]: the time value of the new object. *)
Definition Date_of (value : jsval) : num :=
  match value with
  | VStr s => Date_parse s
  | VUndef => NaN
  | VNum (Fin z) => TimeClip z
  | VNum NaN => NaN
  end.

(** [d.getMinutes()] *)
Definition getMinutes (tv : num) : num :=
  match tv with
  | Fin t => Fin (MinFromTime (LocalTime t))
  | NaN => NaN
  end.

(** [d.setMinutes(min)]: the time value [d] holds afterwards. *)
Definition setMinutes (tv : num) (min : num) : num :=
  match tv, min with
  | Fin t, Fin m =>
      let t := LocalTime t in
      let date :=
        MakeDate (Day t)
          (MakeTime (HourFromTime t) m (SecFromTime t) (msFromTime t)) in
      TimeClip (UTC date)
  | _, _ => NaN
  end.

(** [d.toTimeString().slice(0, 8)]: the local [HH:MM:SS], or the first
    eight characters of ["Invalid Date"]. *)
Definition toTimeString_slice_0_8 (tv : num) : string :=
  match tv with
  | Fin t =>
      let t := LocalTime t in
      pad2 (HourFromTime t) +:+ ":" +:+ pad2 (MinFromTime t) +:+ ":"
        +:+ pad2 (SecFromTime t)
  | NaN => "Invalid "
  end.
End Date.

(** ** Robot records *)

(** [type RobotData]: the three reservation fields, and [required], the
    remaining properties of the object ([id], [alias], [type] and any
    further column of the file) in insertion order. *)
Record RobotData := mkRobot {
  required : obj;
  used_by : jsval;
  start_time : jsval;
  end_time : jsval }.

#[global] Instance RobotData_eq_dec : EqDecision RobotData.
Proof. solve_decision. Defined.

Definition robot_id (r : RobotData) : jsval := obj_get "id" (required r).
Definition robot_alias (r : RobotData) : jsval := obj_get "alias" (required r).
Definition robot_type (r : RobotData) : jsval := obj_get "type" (required r).

(** The object [{...required, used_by, start_time, end_time}] a record is. *)
Definition to_obj (r : RobotData) : obj :=
  required r ++
  [("used_by", used_by r); ("start_time", start_time r); ("end_time", end_time r)].

Definition set_used_by (v : jsval) (r : RobotData) : RobotData :=
  mkRobot (required r) v (start_time r) (end_time r).
Definition set_start_time (v : jsval) (r : RobotData) : RobotData :=
  mkRobot (required r) (used_by r) v (end_time r).
Definition set_end_time (v : jsval) (r : RobotData) : RobotData :=
  mkRobot (required r) (used_by r) (start_time r) v.

(** ** Results and the codec interface *)

Inductive exn := IOError | FormatError | Error (message : string).

Inductive result (A : Type) := Ok (a : A) | Throw (e : exn).
Arguments Ok {A} a.
Arguments Throw {A} e.

(** [class CsvParser]: [parse] is [csv-parse/sync] with [columns: true] and
    [cast: true], [stringify] is [csvjson-json2csv].  Both are third-party
    modules; the manager is verified against this interface. *)
Record CsvParser := {
  parse : string → result (list obj);
  stringify : list obj → string }.

(** ** Process state *)

Record State := mkState {
  file : option string;   (** [./src/data.csv]; [None] when it cannot be read *)
  writable : bool;        (** whether [writeFile] succeeds *)
  clock : nat → Z;        (** the n-th reading of the system clock, epoch ms *)
  ticks : nat;            (** clock readings taken so far *)
  stdout : list string;   (** what [console.log] printed, oldest first *)
  written : list string;  (** contents of the completed [writeFile] calls *)
  data : list RobotData   (** [RobotManager.data] *) }.

(** Computations of the process: they read and update the state, and end
    with a value or a thrown error (a rejected promise). *)
Definition M (A : Type) : Type := State → result A * State.

#[global] Instance M_ret : MRet M := λ A a s, (Ok a, s).
#[global] Instance M_bind : MBind M := λ A B f c s,
  match c s with
  | (Ok a, s') => f a s'
  | (Throw e, s') => (Throw e, s')
  end.

Definition throw {A} (e : exn) : M A := λ s, (Throw e, s).
Definition lift {A} (r : result A) : M A := λ s, (r, s).
Definition get_data : M (list RobotData) := λ s, (Ok (data s), s).
Definition set_data (d : list RobotData) : M unit := λ s,
  (Ok tt, mkState (file s) (writable s) (clock s) (ticks s) (stdout s) (written s) d).

(** [new Date()]: reads the clock. *)
Definition Date_now : M num := λ s,
  (Ok (Fin (clock s (ticks s))),
   mkState (file s) (writable s) (clock s) (S (ticks s)) (stdout s) (written s) (data s)).

Definition readFile : M string := λ s,
  match file s with
  | Some text => (Ok text, s)
  | None => (Throw IOError, s)
  end.

Definition writeFile (text : string) : M unit := λ s,
  if writable s
  then (Ok tt, mkState (Some text) (writable s) (clock s) (ticks s) (stdout s)
                  (written s ++ [text]) (data s))
  else (Throw IOError, s).

Definition console_log (message : string) : M unit := λ s,
  (Ok tt, mkState (file s) (writable s) (clock s) (ticks s)
            (stdout s ++ [message]) (written s) (data s)).

(** ** Strings *)

Definition COMMA : ascii := ","%char.
Definition NEWLINE : ascii := "010"%char.
Definition LF : string := String NEWLINE "".

(** The fields of [s] between the occurrences of the delimiter [c]. *)
Fixpoint split_on (c : ascii) (s : string) : list string :=
  match s with
  | EmptyString => [EmptyString]
  | String a s' =>
      if Ascii.eqb a c then EmptyString :: split_on c s'
      else match split_on c s' with
           | [] => [String a EmptyString]
           | field :: fields => String a field :: fields
           end
  end.

(** Whether the character [c] occurs in [s]. *)
Fixpoint occurs (c : ascii) (s : string) : bool :=
  match s with
  | EmptyString => false
  | String a s' => Ascii.eqb a c || occurs c s'
  end.

(** A string that holds neither of the two delimiters. *)
Definition plain (s : string) : bool :=
  negb (occurs COMMA s) && negb (occurs NEWLINE s).

(** ** Decimal literals

    The strings that denote a number in decimal notation, as [Number] reads
    them (ECMA-262, 7.1.4.1, [StrDecimalLiteral]): blanks around, a sign,
    digits with at most one point, an exponent. *)

(** Tab, line feed, vertical tab, form feed, carriage return, space. *)
Definition BLANKS : list ascii :=
  ["009"; "010"; "011"; "012"; "013"; " "]%char.

Definition is_blank (a : ascii) : bool := existsb (Ascii.eqb a) BLANKS.

Fixpoint ltrim (s : string) : string :=
  match s with
  | String a s' => if is_blank a then ltrim s' else s
  | EmptyString => EmptyString
  end.

Fixpoint rtrim (s : string) : string :=
  match s with
  | String a s' =>
      match rtrim s' with
      | EmptyString => if is_blank a then EmptyString else String a EmptyString
      | r => String a r
      end
  | EmptyString => EmptyString
  end.

Definition trim (s : string) : string := rtrim (ltrim s).

(** A leading sign, and what follows it. *)
Definition signed (s : string) : bool * string :=
  match s with
  | String a s' =>
      if Ascii.eqb a "-" then (true, s')
      else if Ascii.eqb a "+" then (false, s')
      else (false, s)
  | EmptyString => (false, s)
  end.

(** The exponent mark in lower case. *)
Fixpoint lower_e (s : string) : string :=
  match s with
  | String a s' => String (if Ascii.eqb a "E" then "e"%char else a) (lower_e s')
  | EmptyString => EmptyString
  end.

(** The number a non-empty run of digits denotes. *)
Definition digits_value (s : string) : option Z :=
  match s with
  | EmptyString => None
  | _ => Z.of_uint <$> NilEmpty.uint_of_string s
  end.

(** The exponent part: an optional sign and digits. *)
Definition exponent_value (s : string) : option Z :=
  let '(negative, ds) := signed s in
  (λ x, if negative : bool then - x else x) <$> digits_value ds.

(** The mantissa: its digits as an integer, and how many of them follow
    the point. *)
Definition mantissa_value (s : string) : option (Z * Z) :=
  match split_on "." s with
  | [i] => (λ m, (m, 0)) <$> digits_value i
  | [i; f] => (λ m, (m, Z.of_nat (String.length f))) <$> digits_value (i +:+ f)
  | _ => None
  end.

(** [m × 10 ^ e] for the mantissa [m], when that is an integer; [None]
    for a fraction, and for a value beyond every double. *)
Definition scaled (m : string) (e : Z) : option Z :=
  '(d, f) ← mantissa_value m;
  let e := e - f in
  if d =? 0 then Some 0
  else if 0 <=? e then (if e <=? 400 then Some (d * 10 ^ e) else None)
  else if - e <=? Z.log2 d
       then (if d mod 10 ^ (- e) =? 0 then Some (d / 10 ^ (- e)) else None)
       else None.

(** The integer an unsigned literal denotes: a mantissa, and an exponent
    after the mark. *)
Definition unsigned_value (body : string) : option Z :=
  match split_on "e" (lower_e body) with
  | [m] => scaled m 0
  | [m; x] => exponent_value x ≫= scaled m
  | _ => None
  end.

(** The integer a decimal literal denotes. *)
Definition literal_value (cell : string) : option Z :=
  let '(negative, body) := signed (trim cell) in
  (λ value, if negative : bool then - value else value) <$> unsigned_value body.

(** The number an integer literal denotes: the double nearest to it. *)
Definition as_double (z : Z) : option num :=
  (λ x, Fin (Z.sgn z * x)) <$> nearest_double (Z.abs z).

(** The digits. *)
Definition DIGITS : list ascii := list_ascii_of_string "0123456789".

(** A character that is no digit. *)
Definition no_digit (c : ascii) : Prop := Forall (λ a, Ascii.eqb a c = false) DIGITS.

(** A string that holds no blank. *)
Definition blank_free (s : string) : Prop := Forall (λ b, occurs b s = false) BLANKS.

(** [u] is an unsigned literal of value [v]: it holds no blank and no
    comma, starts with a digit, and reads as [v]. *)
Definition rendering (u : string) (v : Z) : Prop :=
  blank_free u ∧ occurs COMMA u = false
  ∧ (∃ a rest, u = String a rest ∧ existsb (Ascii.eqb a) DIGITS = true)
  ∧ unsigned_value u = Some v.

(** ** The tabular codec

    [csv-parse/sync] and [csvjson-json2csv] are third-party modules: their
    code is not part of the sources.  The definitions below follow the
    description of the codec in the specification (section 4.1 and the
    storage format of section 6). *)

Section Codec.
(** The specification says that "numeric-looking strings become numbers"
    and leaves open which strings look numeric: [numeric cell] is the
    number the codec reads the cell as, [None] when the cell does not look
    numeric to it. *)
Variable numeric : string → option num.

(** Modelled from the spec: the cell cast of [csv-parse] is missing;
    "numeric-looking strings become numbers; everything else remains
    string". *)
Definition csv_cast (cell : string) : jsval :=
  match numeric cell with
  | Some n => VNum n
  | None => VStr cell
  end.

(** Modelled from the spec: the row builder of [csv-parse] is missing; it
    "builds one mapping per data row keyed by header names", here by one
    property assignment per column, left to right. *)
Definition csv_record (header : list string) (cells : list jsval) : obj :=
  foldl (λ o kv, obj_set kv.1 kv.2 o) [] (zip header cells).

(** Modelled from the spec: the row loop of [csv-parse] is missing; it
    "produces a record per row in file order" and fails on "inconsistent
    column counts". *)
Fixpoint csv_rows (header : list string) (lines : list string) : result (list obj) :=
  match lines with
  | [] => Ok []
  | line :: lines' =>
      let cells := split_on COMMA line in
      if (length cells =? length header)%nat
      then match csv_rows header lines' with
           | Ok records => Ok (csv_record header (csv_cast <$> cells) :: records)
           | Throw e => Throw e
           end
      else Throw FormatError
  end.

(** Modelled from the spec: [parse] of [csv-parse/sync] is missing; it
    "splits the text into a header row and data rows (first row = field
    names), builds one mapping per data row keyed by header names, and
    attempts to infer/cast scalar types for every cell", one record per row
    in file order, and "fails with a FormatError if the text is malformed
    (inconsistent column counts)".  Rows are separated by line feeds and
    cells by commas. *)
Definition csv_parse (text : string) : result (list obj) :=
  match split_on NEWLINE text with
  | [] => Ok []
  | head :: rows => csv_rows (split_on COMMA head) rows
  end.
End Codec.

(** Modelled from the spec: the cell rendering of [csvjson-json2csv] is
    missing; "each value rendered as its natural textual form (empty string
    for absent optional fields)". *)
Definition csv_render (v : jsval) : string :=
  match v with
  | VUndef => ""
  | VStr s => s
  | VNum n => number_to_string n
  end.

(** Modelled from the spec: [stringify] of [csvjson-json2csv] is missing;
    it "emits a header line from the first record's keys followed by one
    line per record, each value rendered as its natural textual form". *)
Definition csv_stringify (records : list obj) : string :=
  match records with
  | [] => ""
  | first :: _ =>
      String.concat LF
        (String.concat "," (fst <$> first)
         :: ((λ record, String.concat "," (csv_render ∘ snd <$> record)) <$> records))
  end.

(** The [CsvParser] of the specification, for a reading of the cells. *)
Definition codec (numeric : string → option num) : CsvParser :=
  {| parse := csv_parse numeric; stringify := csv_stringify |}.

(** Modelled from the spec: the number test of [csv-parse]'s cast is
    missing; "numeric-looking strings become numbers".  A cell looks
    numeric here when it is a decimal literal, and becomes the number the
    literal denotes.  The numbers of the model are integers: a literal whose
    value is a fraction ("1.5") has no number here, and the cell is left as
    it is. *)
Definition decimal_cell (cell : string) : option num :=
  literal_value cell ≫= as_double.

(** The codec that reads decimal literals. *)
Definition spec_parser : CsvParser := codec decimal_cell.

(** ** What the file can hold *)

(** The codec reads every integer back from what is written for it. *)
Definition reads_integers (numeric : string → option num) : Prop :=
  ∀ z, is_double z = true → numeric (number_to_string (Fin z)) = Some (Fin z).

(** The values that survive a trip through the file: the integers, and
    the strings that hold no delimiter and that the codec does not read as
    a number; an absent value is written as an empty cell. *)
Definition storable (numeric : string → option num) (v : jsval) : bool :=
  match v with
  | VUndef => true
  | VStr s => plain s && bool_decide (numeric s = None)
  | VNum (Fin z) => is_double z
  | VNum NaN => false
  end.

(** What comes back for a storable value: an absent one returns as the
    codec reads an empty cell, the empty string unless it takes the empty
    cell for a number. *)
Definition reread (numeric : string → option num) (v : jsval) : jsval :=
  match v with
  | VUndef => csv_cast numeric ""
  | _ => v
  end.

Definition as_read (numeric : string → option num) (record : obj) : obj :=
  prod_map id (reread numeric) <$> record.

(** A record with its absent values turned into empty strings. *)
Definition emptied (record : obj) : obj := as_read (λ _, None) record.

(** The line [csv_stringify] emits for a record. *)
Definition line_of (record : obj) : string :=
  String.concat "," (csv_render ∘ snd <$> record).

(** A record of the table: the keys of the header, storable values. *)
Definition shaped (numeric : string → option num) (keys : list string) (record : obj) : Prop :=
  record.*1 = keys ∧ Forall (λ kv, storable numeric kv.2 = true) record.

(** The optional fields of a robot, as [parseRobotData] names them. *)
Definition OPTIONAL : list string := ["used_by"; "start_time"; "end_time"].

(** An optional field is absent, or holds a value that survives the file
    and counts as set. *)
Definition optional_ok (numeric : string → option num) (v : jsval) : Prop :=
  v = VUndef ∨ (storable numeric v = true ∧ truthy v = true).

(** A robot whose object has the columns [keys] before the optional
    ones, holds storable values, and has each optional field absent or
    set. *)
Definition storable_robot (numeric : string → option num) (keys : list string)
    (r : RobotData) : Prop :=
  (required r).*1 = keys
  ∧ Forall (λ kv, storable numeric kv.2 = true ∧ kv.2 ≠ VUndef) (required r)
  ∧ optional_ok numeric (used_by r) ∧ optional_ok numeric (start_time r)
  ∧ optional_ok numeric (end_time r).

(** ** The manager *)

Definition DEFAULT_DURATION_MIN : num := Fin 60.

(** A parameter declared [durationMin: number = DEFAULT_DURATION_MIN]
    receives [None] when the caller passes [undefined]. *)
Definition default_duration (durationMin : option num) : num :=
  default DEFAULT_DURATION_MIN durationMin.

(** References to the records of [this.data]: a record is addressed by its
    position, and travels with the content it has when the array is built. *)
Definition refs (d : list RobotData) : list (nat * RobotData) := imap pair d.

(** [robot.f = v] through a reference. *)
Definition assign (robot : nat) (f : RobotData → RobotData) : M unit := λ s,
  (Ok tt, mkState (file s) (writable s) (clock s) (ticks s) (stdout s) (written s)
            (alter f robot (data s))).

Fixpoint forEach {A} (f : A → M unit) (l : list A) : M unit :=
  match l with
  | [] => mret tt
  | x :: l' => f x;; forEach f l'
  end.

(** The callback of [parseRobotData]'s [map]. *)
Definition normalise (row : obj) : RobotData :=
  {| required := obj_rest ["used_by"; "start_time"; "end_time"] row;
     used_by := or_undefined (obj_get "used_by" row);
     start_time := or_undefined (obj_get "start_time" row);
     end_time := or_undefined (obj_get "end_time" row) |}.

(** The three assignments of the expiry branch. *)
Definition clear (robot : RobotData) : RobotData :=
  set_end_time VUndef (set_start_time VUndef (set_used_by VUndef robot)).

(** [Array.prototype.join] renders [undefined] elements as empty strings. *)
Definition join_element (v : jsval) : string :=
  match v with
  | VUndef => ""
  | _ => to_string v
  end.

(** [getAllRobotTypes]: [includes] then [push], record by record. *)
Definition getAllRobotTypes (d : list RobotData) : list jsval :=
  foldl (λ robotTypes robot,
           if existsb (same_value_zero (robot_type robot)) robotTypes
           then robotTypes
           else robotTypes ++ [robot_type robot]) [] d.

(** [pickRobotsByType]: a new array holding references into [this.data]. *)
Definition pickRobotsByType (type : jsval) (d : list RobotData) : list (nat * RobotData) :=
  List.filter (λ robot, strict_eq (robot_type robot.2) type) (refs d).

Definition pickFreeRobot (type : jsval) (d : list RobotData) : option (nat * RobotData) :=
  List.find (λ robot, negb (truthy (used_by robot.2))) (pickRobotsByType type d).

(** ** Sample hosts, fleets and storage *)

(** A host in UTC whose [Date.parse] accepts nothing, and [Number] on
    decimal literals (a blank string is 0; a fraction, which the model has
    no number for, reads as [NaN]). *)
Definition utc : Z → bool → Z := λ _ _, 0.
Definition no_date_parse : string → num := λ _, NaN.
Definition decimal (s : string) : num :=
  match trim s with
  | EmptyString => Fin 0
  | _ => default NaN (decimal_cell s)
  end.

Definition robot_record (id alias type : string) (used_by start_time end_time : jsval) : RobotData :=
  mkRobot [("id", VStr id); ("alias", VStr alias); ("type", VStr type)]
    used_by start_time end_time.

Definition R1_free : RobotData := robot_record "R1" "a1" "arm" VUndef VUndef VUndef.
Definition R2_bob : RobotData :=
  robot_record "R2" "a2" "arm" (VStr "bob") (VNum (Fin 1000)) (VNum (Fin 2000)).

(** A reservation without an [end_time], and one that ended before the
    earliest date. *)
Definition R4_open : RobotData :=
  robot_record "R4" "a4" "arm" (VStr "dave") (VNum (Fin 1000)) VUndef.
Definition R5_far : RobotData :=
  robot_record "R5" "a5" "arm" (VStr "erin") (VNum (Fin 1000))
    (VNum (Fin (-8640000000000001))).

(** A manager that has loaded [d] from a file holding it, with the clock
    readings [clock] still to come. *)
Definition manager_holding (clock : nat → Z) (d : list RobotData) : State :=
  mkState (Some (csv_stringify (to_obj <$> d))) true clock 0 [] [] d.

(** The clock ticks over a minute boundary between two readings. *)
Definition ticking : nat → Z :=
  λ n, match n with O => 1700000099999 | _ => 1700000100000 end.

(** A zone one hour ahead of UTC until summer time ends at [summer_end]
    (29 October 2023, 01:00 UTC), on UTC afterwards; a local time that
    occurs twice reads as the earlier instant. *)
Definition summer_end : Z := 1698541200000.
Definition summer_zone (t : Z) (isUTC : bool) : Z :=
  if isUTC
  then if t <? summer_end then msPerHour else 0
  else if t - msPerHour <? summer_end then msPerHour else 0.

(** A clock that stands still. *)
Definition steady : nat → Z := λ _, 1700000100000.

(** The same tick, after the reading [loadData] takes. *)
Definition ticking_after_load : nat → Z :=
  λ n, match n with O => 1700000000000 | S n' => ticking n' end.

Definition HEADER : string := "id,alias,type,used_by,start_time,end_time".

(** A storage file with a reservation that ended at [2000], read at [2500]. *)
Definition stale_storage : State :=
  mkState (Some (HEADER +:+ LF +:+ "R1,a1,arm,,," +:+ LF +:+ "R2,a2,arm,bob,1000,2000"))
    true (λ _, 2500) 0 [] [] [].

Section Manager.
Variable parser : CsvParser.
Variable LocalTZA : Z → bool → Z.
Variable Date_parse : string → num.
(** [Number(s)] on a string argument. *)
Variable Number : string → num.

Definition printMessage (message : string) : M unit := console_log message.

Definition usingMessage (r : RobotData) : string :=
  "[" +:+ to_string (robot_type r) +:+ "] " +:+ to_string (robot_id r) +:+ "("
  +:+ to_string (robot_alias r) +:+ ") is used by 💎" +:+ to_string (used_by r)
  +:+ "💎 " +:+ toTimeString_slice_0_8 LocalTZA (Date_of Date_parse (start_time r))
  +:+ " - " +:+ toTimeString_slice_0_8 LocalTZA (Date_of Date_parse (end_time r)).

Definition notUsingMessage (r : RobotData) : string :=
  "[" +:+ to_string (robot_type r) +:+ "] " +:+ to_string (robot_id r) +:+ "("
  +:+ to_string (robot_alias r) +:+ ") is not used".

Definition usage_line (r : RobotData) : string :=
  let isNotUsed := negb (truthy (used_by r)) in
  if isNotUsed then notUsingMessage r else usingMessage r.

Definition printRobotUsageMessage (rs : list RobotData) : M unit :=
  printMessage (String.concat LF (usage_line <$> rs)).

Definition getRobotData : M string := readFile.

Definition updateRobotData : M unit :=
  d ← get_data;
  let updatedInput := stringify parser (to_obj <$> d) in
  writeFile updatedInput.

Definition parseRobotData (input : string) : result (list RobotData) :=
  match parse parser input with
  | Ok rows => Ok (normalise <$> rows)
  | Throw e => Throw e
  end.

(** [makeDurationTime]: two clock readings, then [setMinutes] on the
    second with the minutes of the first. *)
Definition makeDurationTime (durationMin : option num) : M (num * num) :=
  let durationMin := default_duration durationMin in
  now ← Date_now;
  end_ ← Date_now;
  let end_ := setMinutes LocalTZA end_ (num_add (getMinutes LocalTZA now) durationMin) in
  mret (now, end_).

Definition useRobot (robot : nat) (user : jsval) (durationMin : option num) : M unit :=
  let durationMin := default_duration durationMin in
  '(startTime, endTime) ← makeDurationTime (Some durationMin);
  assign robot (set_used_by user);;
  assign robot (set_start_time (VNum startTime));;
  assign robot (set_end_time (VNum endTime));;
  updateRobotData;;
  d ← get_data;
  printRobotUsageMessage (option_list (d !! robot)).

(** The body of the [forEach] in [checkAndClearExpiredRobots], on the
    local flag and the record store. *)
Definition expire (now : num) (acc : bool * list RobotData) (robot : nat * RobotData)
  : bool * list RobotData :=
  match acc.2 !! robot.1 with
  | Some r =>
      let endTime := Date_of Date_parse (end_time r) in
      if num_gt now endTime then (true, alter clear robot.1 acc.2) else acc
  | None => acc
  end.

Definition checkAndClearExpiredRobots : M bool :=
  now ← Date_now;
  d ← get_data;
  let selected := List.filter (λ robot, truthy (used_by robot.2)) (refs d) in
  let '(existExpiredRobot, d') := foldl (expire now) (false, d) selected in
  set_data d';;
  mret existExpiredRobot.

Definition loadData : M unit :=
  input ← getRobotData;
  rows ← lift (parseRobotData input);
  set_data rows;;
  exist ← checkAndClearExpiredRobots;
  if exist : bool then updateRobotData else mret tt.

Definition printRobotsByType (type : jsval) : M unit :=
  d ← get_data;
  let pickedRobots := pickRobotsByType type d in
  if (length pickedRobots =? 0)%nat
  then
    let availableRobotTypes := getAllRobotTypes d in
    printMessage ("unavailable type: (" +:+ to_string type +:+ ") from ["
                  +:+ String.concat "," (join_element <$> availableRobotTypes) +:+ "]")
  else printRobotUsageMessage (snd <$> pickedRobots).

Definition printAllRobots : M unit :=
  d ← get_data;
  let robotTypes := getAllRobotTypes d in
  forEach (λ type,
             d ← get_data;
             printRobotUsageMessage (snd <$> pickRobotsByType type d)) robotTypes.

Definition useRobotByType (type user : jsval) (durationMin : option num) : M unit :=
  let durationMin := default_duration durationMin in
  d ← get_data;
  match pickFreeRobot type d with
  | None => printMessage "availableRobot is not found"
  | Some availableRobot => useRobot availableRobot.1 user (Some durationMin)
  end.

Definition useRobotById (id user : jsval) (durationMin : option num) : M unit :=
  let durationMin := default_duration durationMin in
  d ← get_data;
  match List.find (λ robot, strict_eq (robot_id robot.2) id) (refs d) with
  | None => printMessage ("Can not find robot id " +:+ to_string id)
  | Some foundRobot =>
      if truthy (used_by foundRobot.2)
      then printRobotUsageMessage [foundRobot.2]
      else useRobot foundRobot.1 user (Some durationMin)
  end.

Definition useRobotByAlias (alias user : jsval) (durationMin : option num) : M unit :=
  let durationMin := default_duration durationMin in
  d ← get_data;
  match List.find (λ robot, strict_eq (robot_alias robot.2) alias) (refs d) with
  | None => printMessage ("Can not find robot alias " +:+ to_string alias)
  | Some foundRobot =>
      if truthy (used_by foundRobot.2)
      then printRobotUsageMessage [foundRobot.2]
      else useRobot foundRobot.1 user (Some durationMin)
  end.

(** [process.argv[i]], [undefined] past the end. *)
Definition argument (argv : list string) (i : nat) : jsval :=
  from_option VStr VUndef (argv !! i).

(** [arg3 ? Number(arg3) : undefined] *)
Definition duration_argument (arg3 : jsval) : option num :=
  if truthy arg3
  then Some (match arg3 with VStr s => Number s | VNum n => n | VUndef => NaN end)
  else None.

Definition main (argv : list string) : M unit :=
  loadData;;
  let functionName := argument argv 2 in
  let arg1 := argument argv 3 in
  let arg2 := argument argv 4 in
  let arg3 := argument argv 5 in
  if strict_eq functionName (VStr "check_all") then printAllRobots
  else if strict_eq functionName (VStr "check_type") then printRobotsByType arg1
  else if strict_eq functionName (VStr "use_robot_by_type")
  then useRobotByType arg1 arg2 (duration_argument arg3)
  else if strict_eq functionName (VStr "use_robot_by_id")
  then useRobotById arg1 arg2 (duration_argument arg3)
  else if strict_eq functionName (VStr "use_robot_by_alias")
  then useRobotByAlias arg1 arg2 (duration_argument arg3)
  else throw (Error "unavailable function name").

(** ** Notions the properties are stated with *)

(** A record is free for [pickFreeRobot] when the test [!robot.used_by]
    passes, and of the type when [robot.type === type]. *)
Definition free_of_type (type : jsval) (r : RobotData) : bool :=
  strict_eq (robot_type r) type && negb (truthy (used_by r)).

(** The state after [console.log message]: everything else is untouched. *)
Definition printed (message : string) (s : State) : State :=
  mkState (file s) (writable s) (clock s) (ticks s) (stdout s ++ [message])
    (written s) (data s).

Ltac run :=
  unfold mbind, M_bind, mret, M_ret, get_data, printRobotUsageMessage,
    printMessage, console_log, printed; simpl.

(** The records the expiry pass clears at time [now]: [used_by] is set and
    [now > new Date(end_time)]. *)
Definition expired (now : num) (r : RobotData) : bool :=
  truthy (used_by r) && num_gt now (Date_of Date_parse (end_time r)).

Definition sweep (now : num) (r : RobotData) : RobotData :=
  if expired now r then mkRobot (required r) VUndef VUndef VUndef else r.

(** The end time [makeDurationTime] computes from its two clock readings. *)
Definition end_of_reservation (t1 t2 : Z) (durationMin : num) : num :=
  setMinutes LocalTZA (Fin t2) (num_add (getMinutes LocalTZA (Fin t1)) durationMin).

(** The record [useRobot] leaves behind. *)
Definition reserve (user : jsval) (startTime endTime : num) (r : RobotData) : RobotData :=
  mkRobot (required r) user (VNum startTime) (VNum endTime).

(** The line [printRobotsByType] prints for a type no record has. *)
Definition unavailable_type_message (type : string) (d : list RobotData) : string :=
  "unavailable type: (" +:+ type +:+ ") from ["
  +:+ String.concat "," (join_element <$> getAllRobotTypes d) +:+ "]".

Definition commands : list jsval :=
  [VStr "check_all"; VStr "check_type"; VStr "use_robot_by_type";
   VStr "use_robot_by_id"; VStr "use_robot_by_alias"].

(** After a load, [used_by] is absent or counts as set. *)
Definition normalised (r : RobotData) : Prop :=
  used_by r = VUndef ∨ truthy (used_by r) = true.





(** A row with every stored time of [0] replaced by an empty cell. *)
Definition zero_as_empty (row : obj) : obj :=
  (λ kv : string * jsval,
     if bool_decide (kv.1 ∈ ["start_time"; "end_time"]) && bool_decide (kv.2 = VNum (Fin 0))
     then (kv.1, VStr "") else kv) <$> row.

(** The state after [console.log] printed [lines], oldest first. *)
Definition said (lines : list string) (s : State) : State :=
  mkState (file s) (writable s) (clock s) (ticks s) (stdout s ++ lines)
    (written s) (data s).

(** The records with [robot.type === type], in load order. *)
Definition of_type (type : jsval) (d : list RobotData) : list RobotData :=
  List.filter (λ r, strict_eq (robot_type r) type) d.

(** The message [printRobotUsageMessage] prints for a list of records. *)
Definition usage_message (rs : list RobotData) : string :=
  String.concat LF (usage_line <$> rs).

(** The message [printRobotsByType] prints. *)
Definition check_type_message (type : jsval) (d : list RobotData) : string :=
  match of_type type d with
  | [] => "unavailable type: (" +:+ to_string type +:+ ") from ["
          +:+ String.concat "," (join_element <$> getAllRobotTypes d) +:+ "]"
  | rs => usage_message rs
  end.

(** An optional value as [parseRobotData] leaves it: absent, or truthy. *)
Definition absent_or_set (v : jsval) : Prop := v = VUndef ∨ truthy v = true.

(** A record as [parseRobotData] builds it: the three optional fields are
    absent or truthy, and none of them is among the remaining properties. *)
Definition well_parsed (r : RobotData) : Prop :=
  absent_or_set (used_by r) ∧ absent_or_set (start_time r) ∧ absent_or_set (end_time r)
  ∧ ∀ k, k ∈ OPTIONAL → k ∉ (required r).*1.

(** The state after one more reading of the clock. *)
Definition ticked (s : State) : State :=
  mkState (file s) (writable s) (clock s) (S (ticks s)) (stdout s) (written s) (data s).

(** A third sample robot, of another type. *)
Definition R3_drone : RobotData := robot_record "R3" "a3" "drone" VUndef VUndef VUndef.

(** ** References and linear search *)

Lemma find_imap (p : RobotData → bool) (f : nat → nat) (d : list RobotData) :
  List.find (λ robot, p robot.2) (imap (λ i r, (f i, r)) d)
  = prod_map f id <$> list_find (λ r, p r = true) d.
Proof.
  revert f. induction d as [|x d IH]; intros f; [done|].
  cbn [imap List.find list_find]. simpl.
  destruct (p x) eqn:Hp.
  - rewrite decide_True by done. done.
  - rewrite decide_False by congruence.
    change (imap ((λ i r, (f i, r)) ∘ S) d) with (imap (λ i r, ((f ∘ S) i, r)) d).
    rewrite IH. destruct (list_find _ d) as [[i r]|]; done.
Qed.

Lemma find_refs (p : RobotData → bool) (d : list RobotData) :
  List.find (λ robot, p robot.2) (refs d) = list_find (λ r, p r = true) d.
Proof.
  unfold refs.
  change (imap pair d) with (imap (λ i (r : RobotData), (id i, r)) d).
  rewrite find_imap. destruct (list_find _ d) as [[i r]|]; done.
Qed.

Lemma find_filter {A} (p q : A → bool) (l : list A) :
  List.find p (List.filter q l) = List.find (λ x, q x && p x) l.
Proof.
  induction l as [|x l IH]; [done|]. simpl.
  destruct (q x); simpl; [destruct (p x)|]; done.
Qed.

Lemma pickFreeRobot_find (type : jsval) (d : list RobotData) :
  pickFreeRobot type d = list_find (λ r, free_of_type type r = true) d.
Proof.
  unfold pickFreeRobot, pickRobotsByType. rewrite find_filter.
  apply (find_refs (free_of_type type)).
Qed.

Lemma strict_eq_VStr (v : jsval) (s : string) :
  strict_eq v (VStr s) = true ↔ v = VStr s.
Proof.
  destruct v as [|t|[z|]]; simpl; try (split; [done|congruence]).
  rewrite String.eqb_eq. split; congruence.
Qed.

(** C5. For every type string and every record list, [pickFreeRobot]
    returns the first record in load order whose [type] is the argument and
    whose [used_by] does not count as set ([!robot.used_by]), and returns
    nothing exactly when the list holds no such record; the record it
    returns never has [used_by] set, and on a list as [loadData] leaves it
    its [used_by] is absent. *)
Theorem pickFreeRobot_first_free (type : string) (d : list RobotData) :
  match pickFreeRobot (VStr type) d with
  | Some (i, r) =>
      d !! i = Some r ∧ robot_type r = VStr type ∧ truthy (used_by r) = false
      ∧ (∀ j r', (j < i)%nat → d !! j = Some r' →
                 ¬ (robot_type r' = VStr type ∧ truthy (used_by r') = false))
      ∧ (Forall normalised d → used_by r = VUndef)
  | None =>
      ∀ r', r' ∈ d → ¬ (robot_type r' = VStr type ∧ truthy (used_by r') = false)
  end.
Proof.
  rewrite pickFreeRobot_find.
  destruct (list_find _ d) as [[i r]|] eqn:Hfind.
  - apply list_find_Some in Hfind as (Hi & Hfree & Hfirst).
    unfold free_of_type in Hfree.
    apply andb_true_iff in Hfree as [Htype Hused].
    apply strict_eq_VStr in Htype. apply negb_true_iff in Hused.
    split_and!; [done..| |].
    + intros j r' Hj Hr' [Ht Hu]. apply (Hfirst j r' Hr' Hj).
      unfold free_of_type. rewrite Hu. simpl. rewrite andb_true_r.
      by apply strict_eq_VStr.
    + intros Hnormal. rewrite list.Forall_forall in Hnormal.
      destruct (Hnormal r) as [Hu|Hu]; [by eapply list_elem_of_lookup_2|done|].
      congruence.
  - apply list_find_None in Hfind.
    intros r' Hr' [Ht Hu].
    rewrite list.Forall_forall in Hfind. apply (Hfind r' Hr').
    unfold free_of_type. rewrite Hu. simpl. rewrite andb_true_r.
    by apply strict_eq_VStr.
Qed.

(** ** Rejected reservations *)

Lemma find_first (p : RobotData → bool) (d : list RobotData) i r :
  d !! i = Some r → p r = true →
  (∀ j r', (j < i)%nat → d !! j = Some r' → p r' = false) →
  List.find (λ robot, p robot.2) (refs d) = Some (i, r).
Proof.
  intros Hi Hp Hfirst. rewrite find_refs. apply list_find_Some.
  split_and!; [done..|]. intros j r' Hj Hlt. rewrite (Hfirst j r'); done.
Qed.

Lemma find_absent (p : RobotData → bool) (d : list RobotData) :
  (∀ r, r ∈ d → p r = false) →
  List.find (λ robot, p robot.2) (refs d) = None.
Proof.
  intros Hnone. rewrite find_refs. apply list_find_None, list.Forall_forall.
  intros r Hr. rewrite (Hnone r Hr). done.
Qed.

Lemma strict_eq_VStr_false (v : jsval) (s : string) :
  strict_eq v (VStr s) = false ↔ v ≠ VStr s.
Proof.
  rewrite <- strict_eq_VStr. destruct (strict_eq v (VStr s)); split; congruence.
Qed.

Lemma useRobotByType_none_free (type : string) (user : jsval)
    (durationMin : option num) (s : State) :
  (∀ r, r ∈ data s → robot_type r = VStr type → truthy (used_by r) = true) →
  useRobotByType (VStr type) user durationMin s
  = (Ok tt, printed "availableRobot is not found" s).
Proof.
  intros Hbusy. unfold useRobotByType. run.
  rewrite pickFreeRobot_find.
  replace (list_find _ (data s)) with (@None (nat * RobotData)); [done|].
  symmetry. apply list_find_None, list.Forall_forall. intros r Hr.
  unfold free_of_type. intros [Ht Hu]%andb_true_iff.
  apply strict_eq_VStr in Ht. rewrite (Hbusy r Hr Ht) in Hu. done.
Qed.

(** C7. When every record of the requested type has [used_by] set,
    [useRobotByType] prints "availableRobot is not found" and returns:
    the records, the storage file and the list of writes are unchanged. *)
Theorem useRobotByType_unavailable (type : string) (user : jsval)
    (durationMin : option num) (s : State) :
  (∀ r, r ∈ data s → robot_type r = VStr type → truthy (used_by r) = true) →
  useRobotByType (VStr type) user durationMin s
  = (Ok tt, printed "availableRobot is not found" s)
  ∧ data (printed "availableRobot is not found" s) = data s
  ∧ file (printed "availableRobot is not found" s) = file s
  ∧ written (printed "availableRobot is not found" s) = written s.
Proof.
  intros Hbusy. split; [|done]. by apply useRobotByType_none_free.
Qed.

Lemma usage_line_used (r : RobotData) :
  truthy (used_by r) = true → usage_line r = usingMessage r.
Proof. unfold usage_line. by intros ->. Qed.

Lemma usage_line_not_used (r : RobotData) :
  truthy (used_by r) = false → usage_line r = notUsingMessage r.
Proof. unfold usage_line. by intros ->. Qed.

Lemma useRobotById_reserved (key : string) (user : jsval)
    (durationMin : option num) (s : State) (i : nat) (r : RobotData) :
  data s !! i = Some r → robot_id r = VStr key →
  (∀ j r', (j < i)%nat → data s !! j = Some r' → robot_id r' ≠ VStr key) →
  truthy (used_by r) = true →
  useRobotById (VStr key) user durationMin s = (Ok tt, printed (usingMessage r) s).
Proof.
  intros Hi Hid Hfirst Hused. unfold useRobotById. run.
  rewrite (find_first (λ r, strict_eq (robot_id r) (VStr key)) _ i r);
    [|done|by apply strict_eq_VStr|].
  - simpl. rewrite Hused, (usage_line_used r Hused). done.
  - intros j r' Hj Hr'. apply strict_eq_VStr_false. eauto.
Qed.

Lemma useRobotByAlias_reserved (key : string) (user : jsval)
    (durationMin : option num) (s : State) (i : nat) (r : RobotData) :
  data s !! i = Some r → robot_alias r = VStr key →
  (∀ j r', (j < i)%nat → data s !! j = Some r' → robot_alias r' ≠ VStr key) →
  truthy (used_by r) = true →
  useRobotByAlias (VStr key) user durationMin s = (Ok tt, printed (usingMessage r) s).
Proof.
  intros Hi Hid Hfirst Hused. unfold useRobotByAlias. run.
  rewrite (find_first (λ r, strict_eq (robot_alias r) (VStr key)) _ i r);
    [|done|by apply strict_eq_VStr|].
  - simpl. rewrite Hused, (usage_line_used r Hused). done.
  - intros j r' Hj Hr'. apply strict_eq_VStr_false. eauto.
Qed.

(** C3. When the record that [useRobotById] (resp. [useRobotByAlias])
    finds, i.e. the first one with the given id (resp. alias), is already
    reserved, the call prints that record's usage line and returns: no
    field of any record changes and storage is not written. *)
Theorem reserved_robot_rejected (key : string) (user : jsval)
    (durationMin : option num) (s : State) (i : nat) (r : RobotData) :
  data s !! i = Some r →
  truthy (used_by r) = true →
  (robot_id r = VStr key →
   (∀ j r', (j < i)%nat → data s !! j = Some r' → robot_id r' ≠ VStr key) →
   useRobotById (VStr key) user durationMin s = (Ok tt, printed (usingMessage r) s))
  ∧ (robot_alias r = VStr key →
     (∀ j r', (j < i)%nat → data s !! j = Some r' → robot_alias r' ≠ VStr key) →
     useRobotByAlias (VStr key) user durationMin s = (Ok tt, printed (usingMessage r) s))
  ∧ data (printed (usingMessage r) s) = data s
  ∧ file (printed (usingMessage r) s) = file s
  ∧ written (printed (usingMessage r) s) = written s.
Proof.
  intros Hi Hused. split_and!; [| |done..].
  - intros Hid Hfirst. by apply (useRobotById_reserved key _ _ s i r).
  - intros Hid Hfirst. by apply (useRobotByAlias_reserved key _ _ s i r).
Qed.

(** ** Expiry *)

Lemma expire_foldl (now : num) (suf pre : list RobotData) (b : bool) :
  foldl (expire now) (b, pre ++ suf)
    (List.filter (λ robot, truthy (used_by robot.2))
       (imap (λ i r, (length pre + i, r)%nat) suf))
  = (b || existsb (expired now) suf, pre ++ (sweep now <$> suf)).
Proof.
  revert pre b. induction suf as [|x suf IH]; intros pre b.
  - simpl. by rewrite orb_false_r.
  - assert (Hext : ∀ y, imap ((λ i r, (length pre + i, r)%nat) ∘ S) suf
                   = imap (λ i r, (length (pre ++ [y]) + i, r)%nat) suf).
    { intros y. apply imap_ext. intros j z _. simpl. rewrite length_app. simpl.
      f_equal. lia. }
    assert (Hx : expired now x
                 = truthy (used_by x) && num_gt now (Date_of Date_parse (end_time x)))
      by done.
    cbn [imap List.filter existsb fmap list_fmap snd].
    replace (length pre + 0)%nat with (length pre) by lia.
    unfold sweep at 1. rewrite Hx.
    destruct (truthy (used_by x)) eqn:Hused; cbn [foldl andb orb].
    + unfold expire at 2. cbn [fst snd].
      rewrite list_lookup_middle by done.
      destruct (num_gt now _) eqn:Hgt.
      * rewrite alter_app_r_alt, Nat.sub_diag by done. cbn [alter list_alter].
        rewrite (Hext (clear x)), (cons_middle (clear x)), app_assoc, IH.
        rewrite <- app_assoc. by rewrite orb_true_r.
      * rewrite (Hext x), (cons_middle x), app_assoc, IH.
        rewrite <- app_assoc. done.
    + rewrite (Hext x), (cons_middle x), app_assoc, IH.
      rewrite <- app_assoc. done.
Qed.

Lemma checkAndClearExpiredRobots_sweep (s : State) :
  let now := Fin (clock s (ticks s)) in
  checkAndClearExpiredRobots s
  = (Ok (existsb (expired now) (data s)),
     mkState (file s) (writable s) (clock s) (S (ticks s)) (stdout s) (written s)
       (sweep now <$> data s)).
Proof.
  unfold checkAndClearExpiredRobots, Date_now, set_data. run.
  pose proof (expire_foldl (Fin (clock s (ticks s))) (data s) [] false) as H.
  simpl in H. unfold refs.
  change (imap pair (data s)) with (imap (λ i (r : RobotData), (i, r)) (data s)).
  by rewrite H.
Qed.

Lemma TimeClip_in_range (e : Z) :
  Z.abs e <= 8640000000000000 → TimeClip e = Fin e.
Proof. intros H. unfold TimeClip. by rewrite (proj2 (Z.leb_le _ _) H). Qed.

Lemma Date_of_invalid (v : jsval) :
  v = VUndef ∨ v = VNum NaN ∨ (∃ e, v = VNum (Fin e) ∧ 8640000000000000 < Z.abs e) →
  Date_of Date_parse v = NaN.
Proof.
  intros [->|[->|(e & -> & He)]]; [done..|].
  cbn [Date_of]. unfold TimeClip. by rewrite (proj2 (Z.leb_gt _ _) He).
Qed.

Lemma sweep_kept (now : Z) (r : RobotData) :
  truthy (used_by r) = true →
  sweep (Fin now) r = r ↔ (∀ e, Date_of Date_parse (end_time r) = Fin e → now <= e).
Proof.
  intros Hused. unfold sweep, expired. rewrite Hused. cbn [andb].
  destruct (Date_of Date_parse (end_time r)) as [e|]; cbn [num_gt].
  - destruct (e <? now) eqn:E.
    + apply Z.ltb_lt in E. split.
      * intros Heq. rewrite <- Heq in Hused. done.
      * intros H. specialize (H e eq_refl). lia.
    + apply Z.ltb_ge in E. split; [|done]. by intros _ e' [= <-].
  - split; [|done]. by intros _ e' [=].
Qed.

(** C1 (as the code has it). [checkAndClearExpiredRobots] reads the clock
    once, returns whether some record is expired, clears [used_by],
    [start_time] and [end_time] on every record with [used_by] set whose
    [end_time], read as a date, is strictly before that reading, leaves the
    other records alone, and touches neither storage nor the console.
    Afterwards a record with [used_by] set has an [end_time] that is at or
    after the reading, whenever it is a valid date (a number within the
    [Date] range, or a string [Date.parse] reads).  A reserved record stays
    as it is exactly when its [end_time] is no date before the reading: so a
    reservation whose [end_time] equals the reading is kept, and so is one
    whose [end_time] is absent, [NaN] or beyond the [Date] range. *)
Theorem clearExpired_keeps_unexpired (s : State) :
  let now := clock s (ticks s) in
  let s' := (checkAndClearExpiredRobots s).2 in
  (checkAndClearExpiredRobots s).1 = Ok (existsb (expired (Fin now)) (data s))
  ∧ data s' = sweep (Fin now) <$> data s
  ∧ file s' = file s ∧ written s' = written s ∧ stdout s' = stdout s
  ∧ (∀ r e, r ∈ data s' → truthy (used_by r) = true →
       Date_of Date_parse (end_time r) = Fin e → now <= e)
  ∧ (∀ r e, r ∈ data s' → truthy (used_by r) = true →
       end_time r = VNum (Fin e) → Z.abs e <= 8640000000000000 → now <= e)
  ∧ (∀ i r, data s !! i = Some r → truthy (used_by r) = true →
       (data s' !! i = Some r
        ↔ (∀ e, Date_of Date_parse (end_time r) = Fin e → now <= e))
       ∧ (data s' !! i = Some r
          ∨ data s' !! i = Some (mkRobot (required r) VUndef VUndef VUndef)))
  ∧ (∀ i r, data s !! i = Some r → truthy (used_by r) = true →
       end_time r = VUndef ∨ end_time r = VNum NaN
       ∨ (∃ e, end_time r = VNum (Fin e) ∧ 8640000000000000 < Z.abs e) →
       data s' !! i = Some r)
  ∧ (∀ i r, data s !! i = Some r → truthy (used_by r) = false → data s' !! i = Some r).
Proof.
  intros now s'. subst s'. rewrite checkAndClearExpiredRobots_sweep. simpl.
  fold now.
  assert (Hkept : ∀ r e, r ∈ sweep (Fin now) <$> data s → truthy (used_by r) = true →
                    Date_of Date_parse (end_time r) = Fin e → now <= e).
  { intros r e Hr Hused He.
    apply list_elem_of_fmap in Hr as (r0 & -> & _).
    revert Hused He. unfold sweep. destruct (expired (Fin now) r0) eqn:Hexp; [done|].
    intros Hused He. unfold expired in Hexp. rewrite Hused, He in Hexp.
    cbn in Hexp. lia. }
  split_and!; [done..|exact Hkept| | | |].
  - intros r e Hr Hused He Hrange. apply (Hkept r e Hr Hused).
    rewrite He. cbn [Date_of]. by apply TimeClip_in_range.
  - intros i r Hi Hused. rewrite list_lookup_fmap, Hi. cbn [fmap option_fmap option_map].
    split.
    + rewrite <- (sweep_kept now r Hused). split; [by intros [= ->]|by intros ->].
    + unfold sweep. destruct (expired (Fin now) r); [by right|by left].
  - intros i r Hi Hused Hinvalid. rewrite list_lookup_fmap, Hi.
    cbn [fmap option_fmap option_map]. f_equal.
    apply (sweep_kept now r Hused). intros e He.
    by rewrite (Date_of_invalid _ Hinvalid) in He.
  - intros i r Hi Hfree. rewrite list_lookup_fmap, Hi.
    cbn [fmap option_fmap option_map]. f_equal.
    unfold sweep, expired. by rewrite Hfree.
Qed.

(** ** Loading *)

Lemma loadData_run (s : State) (input : string) (rows : list obj) :
  file s = Some input → parse parser input = Ok rows →
  let now := Fin (clock s (ticks s)) in
  let loaded := normalise <$> rows in
  let d' := sweep now <$> loaded in
  let text := stringify parser (to_obj <$> d') in
  loadData s =
    if existsb (expired now) loaded
    then if writable s
         then (Ok tt, mkState (Some text) (writable s) (clock s) (S (ticks s))
                        (stdout s) (written s ++ [text]) d')
         else (Throw IOError, mkState (file s) (writable s) (clock s) (S (ticks s))
                                (stdout s) (written s) d')
    else (Ok tt, mkState (file s) (writable s) (clock s) (S (ticks s))
                   (stdout s) (written s) d').
Proof.
  intros Hfile Hparse now loaded d' text.
  unfold loadData, getRobotData, readFile, lift, parseRobotData, set_data.
  run. rewrite Hfile, Hparse.
  rewrite checkAndClearExpiredRobots_sweep. simpl. fold now loaded.
  destruct (existsb (expired now) loaded); [|by rewrite Hfile].
  unfold updateRobotData, writeFile. run.
  destruct (writable s); by rewrite ?Hfile.
Qed.

Lemma loadData_unreadable (s : State) :
  file s = None → loadData s = (Throw IOError, s).
Proof.
  intros Hfile. unfold loadData, getRobotData, readFile. run. by rewrite Hfile.
Qed.

Lemma loadData_malformed (s : State) (input : string) (e : exn) :
  file s = Some input → parse parser input = Throw e →
  loadData s = (Throw e, s).
Proof.
  intros Hfile Hparse.
  unfold loadData, getRobotData, readFile, lift, parseRobotData. run.
  by rewrite Hfile, Hparse.
Qed.

Lemma loadData_data (s : State) (input : string) (rows : list obj) :
  file s = Some input → parse parser input = Ok rows →
  data (loadData s).2 = sweep (Fin (clock s (ticks s))) <$> (normalise <$> rows).
Proof.
  intros Hfile Hparse. rewrite (loadData_run s input rows Hfile Hparse).
  destruct (existsb _ _); [destruct (writable s)|]; done.
Qed.

Lemma normalised_sweep_normalise (now : num) (row : obj) :
  normalised (sweep now (normalise row)).
Proof.
  unfold sweep. destruct (expired now (normalise row)); [by left|].
  unfold normalised, normalise, or_undefined. simpl.
  destruct (truthy (obj_get "used_by" row)) eqn:E; [by right|by left].
Qed.

(** Whatever [loadData] loads has [used_by] absent or set, never an empty
    or zero value. *)
Lemma loadData_normalised (s s1 : State) :
  loadData s = (Ok tt, s1) → Forall normalised (data s1).
Proof.
  intros Hload.
  destruct (file s) as [input|] eqn:Hfile;
    [|by rewrite (loadData_unreadable s Hfile) in Hload].
  destruct (parse parser input) as [rows|e] eqn:Hparse;
    [|by rewrite (loadData_malformed s input e Hfile Hparse) in Hload].
  rewrite (loadData_run s input rows Hfile Hparse) in Hload.
  assert (Hdata : data s1 = sweep (Fin (clock s (ticks s))) <$> (normalise <$> rows)).
  { destruct (existsb _ _); [destruct (writable s)|]; by inversion Hload. }
  rewrite Hdata. apply Forall_fmap, Forall_fmap, list.Forall_forall.
  intros row _. apply normalised_sweep_normalise.
Qed.

(** C6. [loadData] reads the file, parses it, and runs the expiry pass on
    the parsed records; it rewrites the file (with the serialisation of the
    records after the pass) exactly when the pass cleared a record, and
    when none is expired the file is not written. *)
Theorem loadData_writes_iff_cleared (s : State) (input : string) (rows : list obj) :
  file s = Some input → parse parser input = Ok rows → writable s = true →
  let now := Fin (clock s (ticks s)) in
  let loaded := normalise <$> rows in
  let s' := (loadData s).2 in
  (loadData s).1 = Ok tt
  ∧ data s' = sweep now <$> loaded
  ∧ ((∃ r, r ∈ loaded ∧ expired now r = true) →
     written s' = written s ++ [stringify parser (to_obj <$> data s')]
     ∧ file s' = Some (stringify parser (to_obj <$> data s')))
  ∧ (¬ (∃ r, r ∈ loaded ∧ expired now r = true) →
     written s' = written s ∧ file s' = file s).
Proof.
  intros Hfile Hparse Hw now loaded s'. subst s'.
  rewrite (loadData_run s input rows Hfile Hparse). fold now loaded. rewrite Hw.
  destruct (existsb (expired now) loaded) eqn:Hex; simpl.
  - split_and!; [done..| |]; [done|].
    intros Hnone. exfalso. apply Hnone.
    apply existsb_exists in Hex as (r & Hr & Hexp).
    exists r. by rewrite list_elem_of_In.
  - split_and!; [done..| |done].
    intros (r & Hr & Hexp). exfalso.
    assert (existsb (expired now) loaded = true); [|congruence].
    apply existsb_exists. exists r. by rewrite <- list_elem_of_In.
Qed.

(** ** Reserving *)

Lemma makeDurationTime_run (durationMin : option num) (s : State) :
  let t1 := clock s (ticks s) in
  let t2 := clock s (S (ticks s)) in
  makeDurationTime durationMin s
  = (Ok (Fin t1, end_of_reservation t1 t2 (default_duration durationMin)),
     mkState (file s) (writable s) (clock s) (S (S (ticks s))) (stdout s)
       (written s) (data s)).
Proof. done. Qed.

Lemma useRobot_run (robot : nat) (user : jsval) (durationMin : option num) (s : State) :
  let t1 := clock s (ticks s) in
  let t2 := clock s (S (ticks s)) in
  let endTime := end_of_reservation t1 t2 (default_duration durationMin) in
  let d' := alter (reserve user (Fin t1) endTime) robot (data s) in
  let text := stringify parser (to_obj <$> d') in
  useRobot robot user durationMin s =
    if writable s
    then (Ok tt, mkState (Some text) (writable s) (clock s) (S (S (ticks s)))
                   (stdout s ++ [String.concat LF (usage_line <$> option_list (d' !! robot))])
                   (written s ++ [text]) d')
    else (Throw IOError, mkState (file s) (writable s) (clock s) (S (S (ticks s)))
                           (stdout s) (written s) d').
Proof.
  intros t1 t2 endTime d' text.
  unfold useRobot. unfold mbind at 1, M_bind at 1.
  rewrite makeDurationTime_run. fold t1 t2. cbn [default_duration default].
  fold (default_duration durationMin). fold endTime.
  unfold assign, updateRobotData, writeFile. run.
  rewrite !list_alter_alter_eq.
  change (alter _ robot (data s)) with d'. fold text.
  destruct (writable s); done.
Qed.

(** [setMinutes] adds minutes exactly when both readings are the same
    instant and the zone offset does not move. *)
Lemma time_fields (t : Z) :
  MakeDate (Day t) (MakeTime (HourFromTime t) (MinFromTime t) (SecFromTime t)
                      (msFromTime t)) = t.
Proof.
  unfold MakeDate, MakeTime, Day, HourFromTime, MinFromTime, SecFromTime,
    msFromTime, msPerDay, msPerHour, msPerMinute, msPerSecond.
  pose proof (Z.div_mod t 1000 ltac:(lia)) as H1.
  pose proof (Z.div_mod (t / 1000) 60 ltac:(lia)) as H2.
  pose proof (Z.div_mod (t / 60000) 60 ltac:(lia)) as H3.
  pose proof (Z.div_mod (t / 3600000) 24 ltac:(lia)) as H4.
  assert (t / 1000 / 60 = t / 60000) as E2 by (rewrite Z.div_div; [done|lia..]).
  assert (t / 60000 / 60 = t / 3600000) as E3 by (rewrite Z.div_div; [done|lia..]).
  assert (t / 3600000 / 24 = t / 86400000) as E4 by (rewrite Z.div_div; [done|lia..]).
  lia.
Qed.

Lemma MakeTime_add_minutes (h m k sec ms : Z) :
  MakeTime h (m + k) sec ms = MakeTime h m sec ms + k * msPerMinute.
Proof. unfold MakeTime. lia. Qed.

Lemma end_of_reservation_exact (tz t m : Z) :
  (∀ u b, LocalTZA u b = tz) →
  Z.abs (t + m * msPerMinute) <= 8640000000000000 →
  end_of_reservation t t (Fin m) = Fin (t + m * msPerMinute).
Proof.
  intros Htz Hrange. unfold end_of_reservation, setMinutes, getMinutes, num_add.
  unfold UTC, LocalTime. rewrite !Htz.
  rewrite MakeTime_add_minutes. unfold MakeDate at 1.
  rewrite Z.add_assoc. fold (MakeDate (Day (t + tz))
    (MakeTime (HourFromTime (t + tz)) (MinFromTime (t + tz)) (SecFromTime (t + tz))
       (msFromTime (t + tz)))).
  rewrite time_fields.
  replace (t + tz + m * msPerMinute - tz) with (t + m * msPerMinute) by lia.
  by apply TimeClip_in_range.
Qed.

Lemma useRobotById_free (key : string) (user : jsval) (durationMin : option num)
    (s : State) (i : nat) (r : RobotData) :
  data s !! i = Some r → robot_id r = VStr key →
  (∀ j r', (j < i)%nat → data s !! j = Some r' → robot_id r' ≠ VStr key) →
  truthy (used_by r) = false →
  useRobotById (VStr key) user durationMin s
  = useRobot i user (Some (default_duration durationMin)) s.
Proof.
  intros Hi Hid Hfirst Hfree. unfold useRobotById. run.
  rewrite (find_first (λ r, strict_eq (robot_id r) (VStr key)) _ i r);
    [|done|by apply strict_eq_VStr|].
  - simpl. by rewrite Hfree.
  - intros j r' Hj Hr'. apply strict_eq_VStr_false. eauto.
Qed.

Lemma useRobotByAlias_free (key : string) (user : jsval) (durationMin : option num)
    (s : State) (i : nat) (r : RobotData) :
  data s !! i = Some r → robot_alias r = VStr key →
  (∀ j r', (j < i)%nat → data s !! j = Some r' → robot_alias r' ≠ VStr key) →
  truthy (used_by r) = false →
  useRobotByAlias (VStr key) user durationMin s
  = useRobot i user (Some (default_duration durationMin)) s.
Proof.
  intros Hi Hid Hfirst Hfree. unfold useRobotByAlias. run.
  rewrite (find_first (λ r, strict_eq (robot_alias r) (VStr key)) _ i r);
    [|done|by apply strict_eq_VStr|].
  - simpl. by rewrite Hfree.
  - intros j r' Hj Hr'. apply strict_eq_VStr_false. eauto.
Qed.

Lemma useRobotByType_free (type user : jsval) (durationMin : option num)
    (s : State) (i : nat) (r : RobotData) :
  pickFreeRobot type (data s) = Some (i, r) →
  useRobotByType type user durationMin s
  = useRobot i user (Some (default_duration durationMin)) s.
Proof. intros Hpick. unfold useRobotByType. run. by rewrite Hpick. Qed.

Lemma useRobotById_missing (key : string) (user : jsval) (durationMin : option num)
    (s : State) :
  (∀ r, r ∈ data s → robot_id r ≠ VStr key) →
  useRobotById (VStr key) user durationMin s
  = (Ok tt, printed ("Can not find robot id " +:+ key) s).
Proof.
  intros Hnone. unfold useRobotById. run.
  rewrite (find_absent (λ r, strict_eq (robot_id r) (VStr key))); [done|].
  intros r Hr. apply strict_eq_VStr_false. eauto.
Qed.

Lemma useRobotByAlias_missing (key : string) (user : jsval) (durationMin : option num)
    (s : State) :
  (∀ r, r ∈ data s → robot_alias r ≠ VStr key) →
  useRobotByAlias (VStr key) user durationMin s
  = (Ok tt, printed ("Can not find robot alias " +:+ key) s).
Proof.
  intros Hnone. unfold useRobotByAlias. run.
  rewrite (find_absent (λ r, strict_eq (robot_alias r) (VStr key))); [done|].
  intros r Hr. apply strict_eq_VStr_false. eauto.
Qed.

Lemma filter_imap_nil (p : RobotData → bool) (g : nat → nat) (d : list RobotData) :
  (∀ r, r ∈ d → p r = false) →
  List.filter (λ robot, p robot.2) (imap (λ i r, (g i, r)) d) = [].
Proof.
  revert g. induction d as [|x d IH]; intros g Hnone; [done|].
  cbn [imap List.filter]. simpl. rewrite (Hnone x) by apply list_elem_of_here.
  change (imap ((λ i r, (g i, r)) ∘ S) d) with (imap (λ i r, ((g ∘ S) i, r)) d).
  apply IH. intros r Hr. apply Hnone. by apply list_elem_of_further.
Qed.

Lemma filter_refs_nil (p : RobotData → bool) (d : list RobotData) :
  (∀ r, r ∈ d → p r = false) →
  List.filter (λ robot, p robot.2) (refs d) = [].
Proof.
  intros Hnone. unfold refs.
  change (imap pair d) with (imap (λ i (r : RobotData), (id i, r)) d).
  by apply filter_imap_nil.
Qed.

Lemma printRobotsByType_unknown (type : string) (s : State) :
  (∀ r, r ∈ data s → robot_type r ≠ VStr type) →
  printRobotsByType (VStr type) s
  = (Ok tt, printed (unavailable_type_message type (data s)) s).
Proof.
  intros Hnone. unfold printRobotsByType, pickRobotsByType. run.
  rewrite (filter_refs_nil (λ r, strict_eq (robot_type r) (VStr type))); [done|].
  intros r Hr. apply strict_eq_VStr_false. eauto.
Qed.

(** ** The dispatcher *)

Lemma main_loaded (argv : list string) (s s1 : State) :
  loadData s = (Ok tt, s1) →
  main argv s =
    (let functionName := argument argv 2 in
     let arg1 := argument argv 3 in
     let arg2 := argument argv 4 in
     let arg3 := argument argv 5 in
     if strict_eq functionName (VStr "check_all") then printAllRobots
     else if strict_eq functionName (VStr "check_type") then printRobotsByType arg1
     else if strict_eq functionName (VStr "use_robot_by_type")
     then useRobotByType arg1 arg2 (duration_argument arg3)
     else if strict_eq functionName (VStr "use_robot_by_id")
     then useRobotById arg1 arg2 (duration_argument arg3)
     else if strict_eq functionName (VStr "use_robot_by_alias")
     then useRobotByAlias arg1 arg2 (duration_argument arg3)
     else throw (Error "unavailable function name")) s1.
Proof. intros Hload. unfold main. unfold mbind at 1, M_bind at 1. by rewrite Hload. Qed.

Lemma main_failed_load (argv : list string) (s s1 : State) (e : exn) :
  loadData s = (Throw e, s1) → main argv s = (Throw e, s1).
Proof. intros Hload. unfold main. unfold mbind at 1, M_bind at 1. by rewrite Hload. Qed.

(** An unknown command never returns normally: [main] ends with the
    error of the load, or with the dispatcher's. *)
Lemma main_unknown_command_fails (argv : list string) (s : State) :
  argument argv 2 ∉ commands →
  ∃ e s', main argv s = (Throw e, s')
          ∧ (e = Error "unavailable function name" ∨ loadData s = (Throw e, s')).
Proof.
  intros Hcmd. destruct (loadData s) as [[[]|e] s1] eqn:Hload.
  - exists (Error "unavailable function name"), s1. split; [|by left].
    rewrite (main_loaded argv s s1 Hload). cbv zeta.
    unfold commands in Hcmd. rewrite !not_elem_of_cons in Hcmd.
    destruct Hcmd as (H1 & H2 & H3 & H4 & H5 & _).
    apply strict_eq_VStr_false in H1, H2, H3, H4, H5.
    by rewrite H1, H2, H3, H4, H5.
  - exists e, s1. split; [|by right]. by apply main_failed_load.
Qed.

(** C9 (as the code has it). [main] loads the data before it looks at the
    command.  When the load fails, [main] ends with the error of the load,
    whatever the command.  When it succeeds, a command that is none of
    [check_all], [check_type], [use_robot_by_type], [use_robot_by_id],
    [use_robot_by_alias] makes [main] throw [Error "unavailable function
    name"]; an unknown id, alias or type, an already reserved robot and the
    absence of a free robot are each reported by one printed line, and
    [main] returns normally. *)
Theorem main_unknown_command_throws (argv : list string) (s : State) :
  (argument argv 2 ∉ commands →
   main argv s = match loadData s with
                 | (Ok _, s1) => (Throw (Error "unavailable function name"), s1)
                 | (Throw e, s1) => (Throw e, s1)
                 end)
  ∧ (∀ e s1, loadData s = (Throw e, s1) → main argv s = (Throw e, s1))
  ∧ (∀ s1, loadData s = (Ok tt, s1) →
     (∀ key, argument argv 2 = VStr "use_robot_by_id" → argument argv 3 = VStr key →
        (∀ r, r ∈ data s1 → robot_id r ≠ VStr key) →
        main argv s = (Ok tt, printed ("Can not find robot id " +:+ key) s1))
     ∧ (∀ key, argument argv 2 = VStr "use_robot_by_alias" → argument argv 3 = VStr key →
          (∀ r, r ∈ data s1 → robot_alias r ≠ VStr key) →
          main argv s = (Ok tt, printed ("Can not find robot alias " +:+ key) s1))
     ∧ (∀ type, argument argv 2 = VStr "check_type" → argument argv 3 = VStr type →
          (∀ r, r ∈ data s1 → robot_type r ≠ VStr type) →
          main argv s = (Ok tt, printed (unavailable_type_message type (data s1)) s1))
     ∧ (∀ type, argument argv 2 = VStr "use_robot_by_type" → argument argv 3 = VStr type →
          (∀ r, r ∈ data s1 → robot_type r = VStr type → truthy (used_by r) = true) →
          main argv s = (Ok tt, printed "availableRobot is not found" s1))
     ∧ (∀ key i r, argument argv 2 = VStr "use_robot_by_id" → argument argv 3 = VStr key →
          data s1 !! i = Some r → robot_id r = VStr key →
          (∀ j r', (j < i)%nat → data s1 !! j = Some r' → robot_id r' ≠ VStr key) →
          truthy (used_by r) = true →
          main argv s = (Ok tt, printed (usingMessage r) s1))
     ∧ (∀ key i r, argument argv 2 = VStr "use_robot_by_alias" → argument argv 3 = VStr key →
          data s1 !! i = Some r → robot_alias r = VStr key →
          (∀ j r', (j < i)%nat → data s1 !! j = Some r' → robot_alias r' ≠ VStr key) →
          truthy (used_by r) = true →
          main argv s = (Ok tt, printed (usingMessage r) s1))).
Proof.
  split_and!.
  - intros Hcmd. destruct (loadData s) as [[[]|e] s1] eqn:Hload.
    + rewrite (main_loaded argv s s1 Hload). cbv zeta.
      unfold commands in Hcmd. rewrite !not_elem_of_cons in Hcmd.
      destruct Hcmd as (H1 & H2 & H3 & H4 & H5 & _).
      apply strict_eq_VStr_false in H1, H2, H3, H4, H5.
      by rewrite H1, H2, H3, H4, H5.
    + by apply main_failed_load.
  - intros e s1. apply main_failed_load.
  - intros s1 Hload. rewrite (main_loaded argv s s1 Hload). cbv zeta.
    split_and!.
    + intros key -> ->. simpl. apply useRobotById_missing.
    + intros key -> ->. simpl. apply useRobotByAlias_missing.
    + intros type -> ->. simpl. apply printRobotsByType_unknown.
    + intros type -> ->. simpl. apply useRobotByType_none_free.
    + intros key i r -> -> Hi Hid Hfirst Hused. simpl.
      by apply (useRobotById_reserved key _ _ s1 i r).
    + intros key i r -> -> Hi Hid Hfirst Hused. simpl.
      by apply (useRobotByAlias_reserved key _ _ s1 i r).
Qed.

(** ** Falsy cells *)

Lemma obj_get_set_eq (k : string) (v : jsval) (o : obj) :
  obj_get k (obj_set k v o) = v.
Proof.
  induction o as [|[k' v'] o IH]; simpl.
  - by rewrite String.eqb_refl.
  - destruct (String.eqb k' k) eqn:E; simpl; by rewrite E.
Qed.

Lemma obj_get_set_ne (k k' : string) (v : jsval) (o : obj) :
  k ≠ k' → obj_get k' (obj_set k v o) = obj_get k' o.
Proof.
  intros Hne. induction o as [|[k0 v0] o IH]; simpl.
  - by rewrite (proj2 (String.eqb_neq k k')).
  - destruct (String.eqb k0 k) eqn:E; simpl; [|by rewrite IH].
    apply String.eqb_eq in E as ->. by rewrite (proj2 (String.eqb_neq k k')).
Qed.

Lemma obj_rest_set (ks : list string) (k : string) (v : jsval) (o : obj) :
  k ∈ ks → obj_rest ks (obj_set k v o) = obj_rest ks o.
Proof.
  intros Hk. unfold obj_rest. induction o as [|[k0 v0] o IH]; cbn [obj_set].
  - rewrite filter_cons_False by (simpl; tauto). done.
  - destruct (String.eqb k0 k) eqn:E.
    + apply String.eqb_eq in E as ->.
      rewrite !filter_cons_False by (simpl; tauto). done.
    + rewrite !filter_cons. cbn [fst]. by rewrite IH.
Qed.

Lemma or_undefined_falsy (v : jsval) :
  truthy v = false → or_undefined v = VUndef.
Proof. unfold or_undefined. by intros ->. Qed.

Lemma or_undefined_truthy (v : jsval) :
  truthy v = true → or_undefined v = v.
Proof. unfold or_undefined. by intros ->. Qed.

Lemma normalise_set_falsy (k : string) (v w : jsval) (row : obj) :
  k ∈ ["used_by"; "start_time"; "end_time"] →
  truthy v = false → truthy w = false →
  normalise (obj_set k v row) = normalise (obj_set k w row).
Proof.
  intros Hk Hv Hw. unfold normalise. rewrite !(obj_rest_set _ k) by done.
  f_equal.
  - destruct (decide (k = "used_by")) as [->|Hne].
    + by rewrite !obj_get_set_eq, !or_undefined_falsy.
    + by rewrite !obj_get_set_ne.
  - destruct (decide (k = "start_time")) as [->|Hne].
    + by rewrite !obj_get_set_eq, !or_undefined_falsy.
    + by rewrite !obj_get_set_ne.
  - destruct (decide (k = "end_time")) as [->|Hne].
    + by rewrite !obj_get_set_eq, !or_undefined_falsy.
    + by rewrite !obj_get_set_ne.
Qed.

Lemma pickFreeRobot_first (type : string) (d : list RobotData) (i : nat) (r : RobotData) :
  d !! i = Some r → robot_type r = VStr type → truthy (used_by r) = false →
  (∀ j r', (j < i)%nat → d !! j = Some r' →
           ¬ (robot_type r' = VStr type ∧ truthy (used_by r') = false)) →
  pickFreeRobot (VStr type) d = Some (i, r).
Proof.
  intros Hi Ht Hu Hfirst. rewrite pickFreeRobot_find. apply list_find_Some.
  split_and!; [done| |].
  - unfold free_of_type. rewrite Hu, Ht. simpl. by rewrite String.eqb_refl.
  - intros j r' Hr' Hj. unfold free_of_type.
    intros [Ht' Hu']%andb_true_iff. apply (Hfirst j r' Hj Hr').
    split; [by apply strict_eq_VStr|by apply negb_true_iff].
Qed.

Lemma sweep_free (now : num) (r : RobotData) :
  truthy (used_by r) = false → sweep now r = r.
Proof. intros Hfree. unfold sweep, expired. by rewrite Hfree. Qed.

Lemma sweep_falsy (now : num) (row : obj) :
  let r := sweep now (normalise row) in
  (truthy (obj_get "used_by" row) = false → used_by r = VUndef)
  ∧ (truthy (obj_get "start_time" row) = false → start_time r = VUndef)
  ∧ (truthy (obj_get "end_time" row) = false → end_time r = VUndef).
Proof.
  cbv zeta. unfold sweep. destruct (expired now (normalise row)); [done|].
  cbn [normalise used_by start_time end_time].
  split_and!; apply or_undefined_falsy.
Qed.

Lemma zero_as_empty_rest (row : obj) :
  obj_rest ["used_by"; "start_time"; "end_time"] (zero_as_empty row)
  = obj_rest ["used_by"; "start_time"; "end_time"] row.
Proof.
  unfold obj_rest, zero_as_empty. induction row as [|[k v] row IH]; [done|].
  cbn [fmap list_fmap fst snd]. cbn [fmap] in IH.
  destruct (bool_decide (k ∈ ["start_time"; "end_time"])) eqn:Ek; cbn [andb].
  - apply bool_decide_eq_true in Ek.
    assert (Hk : ¬ (k ∉ ["used_by"; "start_time"; "end_time"])).
    { intros Hk. apply Hk. by apply list_elem_of_further. }
    destruct (bool_decide (v = VNum (Fin 0)));
      rewrite !filter_cons_False by done; exact IH.
  - rewrite !filter_cons. cbn [fst]. by rewrite IH.
Qed.

Lemma zero_as_empty_get (k : string) (row : obj) :
  or_undefined (obj_get k (zero_as_empty row)) = or_undefined (obj_get k row).
Proof.
  unfold zero_as_empty. induction row as [|[k' v] row IH]; [done|].
  cbn [fmap list_fmap fst snd]. cbn [fmap] in IH.
  destruct (bool_decide (k' ∈ ["start_time"; "end_time"])
            && bool_decide (v = VNum (Fin 0))) eqn:E; cbn [obj_get fst snd].
  - destruct (String.eqb k' k); [|exact IH].
    apply andb_true_iff in E as [_ ->%bool_decide_eq_true]. done.
  - destruct (String.eqb k' k); [done|exact IH].
Qed.

Lemma normalise_zero_as_empty (row : obj) :
  normalise (zero_as_empty row) = normalise row.
Proof.
  unfold normalise. by rewrite zero_as_empty_rest, !zero_as_empty_get.
Qed.

(** C10. For every row the codec parses from the file, [loadData] turns
    each falsy optional cell into an absent field: an empty [used_by], and
    an empty or zero [start_time] or [end_time].  A record loaded from a row
    whose [used_by] cell is falsy is free for every operation: its usage
    line says "is not used", [pickFreeRobot] selects it, and a reservation by
    type, by id or by alias goes through to [useRobot].  A file in which
    stored times of [0] are empty cells instead loads as the same records. *)
Theorem falsy_cells_parse_as_absent (s : State) (input : string) (rows : list obj) :
  file s = Some input → parse parser input = Ok rows →
  let s1 := (loadData s).2 in
  parseRobotData input = Ok (normalise <$> rows)
  ∧ (∀ i row, rows !! i = Some row →
       ∃ r, data s1 !! i = Some r
         ∧ (truthy (obj_get "used_by" row) = false → used_by r = VUndef)
         ∧ (truthy (obj_get "start_time" row) = false → start_time r = VUndef)
         ∧ (truthy (obj_get "end_time" row) = false → end_time r = VUndef)
         ∧ (obj_get "used_by" row = VStr "" → used_by r = VUndef)
         ∧ (obj_get "start_time" row = VStr "" ∨ obj_get "start_time" row = VNum (Fin 0) →
            start_time r = VUndef)
         ∧ (obj_get "end_time" row = VStr "" ∨ obj_get "end_time" row = VNum (Fin 0) →
            end_time r = VUndef)
         ∧ (truthy (obj_get "used_by" row) = false →
            r = normalise row
            ∧ usage_line r = notUsingMessage r
            ∧ (∀ type, robot_type r = VStr type →
                 (∀ j r', (j < i)%nat → data s1 !! j = Some r' →
                          ¬ (robot_type r' = VStr type ∧ truthy (used_by r') = false)) →
                 pickFreeRobot (VStr type) (data s1) = Some (i, r)
                 ∧ ∀ user durationMin,
                     useRobotByType (VStr type) user durationMin s1
                     = useRobot i user (Some (default_duration durationMin)) s1)
            ∧ (∀ key user durationMin, robot_id r = VStr key →
                 (∀ j r', (j < i)%nat → data s1 !! j = Some r' → robot_id r' ≠ VStr key) →
                 useRobotById (VStr key) user durationMin s1
                 = useRobot i user (Some (default_duration durationMin)) s1)
            ∧ (∀ key user durationMin, robot_alias r = VStr key →
                 (∀ j r', (j < i)%nat → data s1 !! j = Some r' → robot_alias r' ≠ VStr key) →
                 useRobotByAlias (VStr key) user durationMin s1
                 = useRobot i user (Some (default_duration durationMin)) s1)))
  ∧ (∀ input' s', parse parser input' = Ok (zero_as_empty <$> rows) →
       parseRobotData input' = parseRobotData input
       ∧ (file s' = Some input' → clock s' = clock s → ticks s' = ticks s →
          data (loadData s').2 = data s1)).
Proof.
  intros Hfile Hparse s1.
  assert (Hdata : data s1 = sweep (Fin (clock s (ticks s))) <$> (normalise <$> rows))
    by (by apply (loadData_data s input rows)).
  assert (Hrows : parseRobotData input = Ok (normalise <$> rows))
    by (unfold parseRobotData; by rewrite Hparse).
  split_and!; [exact Hrows| |].
  - intros i row Hrow.
    set (now := Fin (clock s (ticks s))) in *.
    exists (sweep now (normalise row)).
    assert (Hi : data s1 !! i = Some (sweep now (normalise row)))
      by (by rewrite Hdata, !list_lookup_fmap, Hrow).
    destruct (sweep_falsy now row) as (Hu & Hs & He).
    split_and!; [exact Hi|exact Hu|exact Hs|exact He|..].
    + intros H. apply Hu. by rewrite H.
    + intros [H|H]; apply Hs; by rewrite H.
    + intros [H|H]; apply He; by rewrite H.
    + intros Hfalsy.
      assert (Hfree : truthy (used_by (normalise row)) = false).
      { cbn [normalise used_by]. by rewrite or_undefined_falsy. }
      rewrite (sweep_free now _ Hfree) in *.
      split_and!; [done|by apply usage_line_not_used|..].
      * intros type Htype Hfirst.
        assert (Hpick : pickFreeRobot (VStr type) (data s1) = Some (i, normalise row))
          by (by apply pickFreeRobot_first).
        split; [exact Hpick|]. intros user durationMin.
        by apply (useRobotByType_free _ _ _ s1 i (normalise row)).
      * intros key user durationMin Hid Hfirst.
        by apply (useRobotById_free key _ _ s1 i (normalise row)).
      * intros key user durationMin Hid Hfirst.
        by apply (useRobotByAlias_free key _ _ s1 i (normalise row)).
  - intros input' s' Hparse'.
    assert (Hsame : normalise <$> (zero_as_empty <$> rows) = normalise <$> rows).
    { rewrite <- list_fmap_compose. apply list_fmap_ext. intros _ row _.
      apply normalise_zero_as_empty. }
    split.
    + rewrite Hrows. unfold parseRobotData. by rewrite Hparse', Hsame.
    + intros Hfile' Hclock Hticks.
      rewrite (loadData_data s' input' _ Hfile' Hparse'), Hdata.
      by rewrite Hsame, Hclock, Hticks.
Qed.

(** ** The reservation invariant *)



Lemma useRobot_data (robot : nat) (user : jsval) (durationMin : option num) (s : State) :
  data (useRobot robot user durationMin s).2
  = alter (reserve user (Fin (clock s (ticks s)))
             (end_of_reservation (clock s (ticks s)) (clock s (S (ticks s)))
                (default_duration durationMin))) robot (data s).
Proof. rewrite useRobot_run. by destruct (writable s). Qed.






(** ** Exact durations *)

Lemma useRobot_default (robot : nat) (user : jsval) (s : State) :
  useRobot robot user None s = useRobot robot user (Some (Fin 60)) s.
Proof. done. Qed.

(** When the clock does not tick between the two readings of
    [makeDurationTime] and the zone offset is fixed, a reservation lasts
    exactly [durationMin] minutes and the new list is written out. *)
Lemma useRobot_exact (robot : nat) (user : jsval) (m tz : Z) (s : State) (r : RobotData) :
  data s !! robot = Some r →
  (∀ u b, LocalTZA u b = tz) →
  clock s (S (ticks s)) = clock s (ticks s) →
  Z.abs (clock s (ticks s) + m * msPerMinute) <= 8640000000000000 →
  writable s = true →
  let t := clock s (ticks s) in
  let s' := (useRobot robot user (Some (Fin m)) s).2 in
  data s' = <[robot := mkRobot (required r) user (VNum (Fin t))
                         (VNum (Fin (t + m * 60000)))]> (data s)
  ∧ written s' = written s ++ [stringify parser (to_obj <$> data s')]
  ∧ file s' = Some (stringify parser (to_obj <$> data s')).
Proof.
  intros Hr Htz Hstill Hrange Hw t s'. subst s'.
  rewrite useRobot_run, Hw, Hstill.
  change (default_duration (Some (Fin m))) with (Fin m).
  cbn [snd data written file]. fold t. rewrite (end_of_reservation_exact tz t m Htz Hrange).
  split_and!; [|done..].
  rewrite list_insert_alter. apply list_alter_ext; [|done].
  intros x Hx. rewrite Hr in Hx. by injection Hx as <-.
Qed.

(** ** Types and groups *)

Lemma same_value_zero_eq (a b : jsval) : same_value_zero a b = true ↔ a = b.
Proof.
  destruct a as [|s|[x|]], b as [|t|[y|]]; simpl; try (split; [done|congruence]);
    try done.
  - rewrite String.eqb_eq. split; congruence.
  - rewrite Z.eqb_eq. split; congruence.
Qed.

Lemma includes_elem_of (t : jsval) (ts : list jsval) :
  existsb (same_value_zero t) ts = true ↔ t ∈ ts.
Proof.
  rewrite existsb_exists. split.
  - intros (x & Hx & Heq). apply same_value_zero_eq in Heq as ->.
    by apply list_elem_of_In.
  - intros Hin. exists t. split; [by apply list_elem_of_In|].
    by apply same_value_zero_eq.
Qed.

(** One turn of the loop of [getAllRobotTypes]. *)
Lemma getAllRobotTypes_snoc (d : list RobotData) (r : RobotData) :
  getAllRobotTypes (d ++ [r])
  = if decide (robot_type r ∈ getAllRobotTypes d)
    then getAllRobotTypes d
    else getAllRobotTypes d ++ [robot_type r].
Proof.
  unfold getAllRobotTypes. rewrite foldl_snoc.
  fold (getAllRobotTypes d).
  destruct (existsb _ _) eqn:E.
  - apply includes_elem_of in E. by rewrite decide_True.
  - rewrite decide_False; [done|]. intros Hin%includes_elem_of. congruence.
Qed.

Lemma getAllRobotTypes_elem_of (d : list RobotData) (t : jsval) :
  t ∈ getAllRobotTypes d ↔ ∃ r, r ∈ d ∧ robot_type r = t.
Proof.
  induction d as [|r d IH] using rev_ind.
  - split; [by intros ?%elem_of_nil|]. by intros (r & ?%elem_of_nil & _).
  - rewrite getAllRobotTypes_snoc. case_decide as Hin.
    + rewrite IH. split.
      * intros (x & Hx & Ht). exists x. split; [|done]. apply elem_of_app. by left.
      * intros (x & [Hx|Hx%list_elem_of_singleton]%elem_of_app & Ht).
        -- by exists x.
        -- subst x. apply IH. by rewrite <- Ht.
    + rewrite elem_of_app, IH, list_elem_of_singleton. split.
      * intros [(x & Hx & Ht) | ->].
        -- exists x. split; [|done]. apply elem_of_app. by left.
        -- exists r. split; [|done]. apply elem_of_app. right. by apply list_elem_of_singleton.
      * intros (x & [Hx|Hx%list_elem_of_singleton]%elem_of_app & Ht).
        -- left. by exists x.
        -- subst x. by right.
Qed.

Lemma getAllRobotTypes_NoDup (d : list RobotData) : NoDup (getAllRobotTypes d).
Proof.
  induction d as [|r d IH] using rev_ind; [apply NoDup_nil_2|].
  rewrite getAllRobotTypes_snoc. case_decide as Hin; [done|].
  apply list.NoDup_app. split_and!; [done| |apply NoDup_singleton].
  intros t Ht Heq%list_elem_of_singleton. by subst t.
Qed.

Lemma getAllRobotTypes_prefix (d1 d2 : list RobotData) :
  getAllRobotTypes d1 `prefix_of` getAllRobotTypes (d1 ++ d2).
Proof.
  induction d2 as [|r d2 IH] using rev_ind; [by rewrite app_nil_r|].
  rewrite app_assoc, getAllRobotTypes_snoc. case_decide; [done|].
  by apply prefix_app_r.
Qed.

(** X1. [getAllRobotTypes] returns each [type] value held by a record
    exactly once, in the order in which the values first occur in the
    list: the types of a shorter list come first, unchanged. *)
Theorem getAllRobotTypes_distinct_in_order (d : list RobotData) :
  NoDup (getAllRobotTypes d)
  ∧ (∀ t, t ∈ getAllRobotTypes d ↔ ∃ r, r ∈ d ∧ robot_type r = t)
  ∧ (∀ d1 d2, d = d1 ++ d2 → getAllRobotTypes d1 `prefix_of` getAllRobotTypes d).
Proof.
  split_and!.
  - apply getAllRobotTypes_NoDup.
  - apply getAllRobotTypes_elem_of.
  - intros d1 d2 ->. apply getAllRobotTypes_prefix.
Qed.

Lemma refs_elem_of (d : list RobotData) (i : nat) (r : RobotData) :
  (i, r) ∈ refs d ↔ d !! i = Some r.
Proof.
  unfold refs. rewrite elem_of_lookup_imap. split.
  - intros (j & y & [= -> ->] & Hj). done.
  - intros Hi. by exists i, r.
Qed.

Lemma filter_imap_snd (p : RobotData → bool) (g : nat → nat) (d : list RobotData) :
  snd <$> List.filter (λ robot, p robot.2) (imap (λ i r, (g i, r)) d) = List.filter p d.
Proof.
  revert g. induction d as [|x d IH]; intros g; [done|].
  cbn [imap List.filter]. simpl.
  change (imap ((λ i r, (g i, r)) ∘ S) d) with (imap (λ i r, ((g ∘ S) i, r)) d).
  destruct (p x); cbn [fmap list_fmap snd]; by rewrite IH.
Qed.

Lemma pickRobotsByType_of_type (type : jsval) (d : list RobotData) :
  snd <$> pickRobotsByType type d = of_type type d.
Proof.
  unfold pickRobotsByType, of_type, refs.
  change (imap pair d) with (imap (λ i (r : RobotData), (id i, r)) d).
  apply (filter_imap_snd (λ r, strict_eq (robot_type r) type)).
Qed.

Lemma of_type_nil (type : jsval) (d : list RobotData) :
  of_type type d = [] ↔ ∀ r, r ∈ d → strict_eq (robot_type r) type = false.
Proof.
  unfold of_type. induction d as [|x d IH]; simpl.
  - split; [|done]. by intros _ r ?%elem_of_nil.
  - destruct (strict_eq (robot_type x) type) eqn:E.
    + split; [done|]. intros H. specialize (H x (list_elem_of_here _ _)). congruence.
    + rewrite IH. split.
      * intros H r [->|Hr]%elem_of_cons; [done|by apply H].
      * intros H r Hr. apply H. by apply list_elem_of_further.
Qed.

(** X2. [pickRobotsByType] refers to exactly the records whose [type] is
    strictly equal to the argument, each at its own position in
    [this.data], and lists them in load order; it is empty exactly when no
    record has the type. *)
Theorem pickRobotsByType_selects (type : jsval) (d : list RobotData) :
  (∀ i r, (i, r) ∈ pickRobotsByType type d
          ↔ d !! i = Some r ∧ strict_eq (robot_type r) type = true)
  ∧ snd <$> pickRobotsByType type d = List.filter (λ r, strict_eq (robot_type r) type) d
  ∧ (pickRobotsByType type d = [] ↔ ∀ r, r ∈ d → strict_eq (robot_type r) type = false).
Proof.
  split_and!.
  - intros i r. unfold pickRobotsByType.
    rewrite list_elem_of_In, filter_In, <- list_elem_of_In, refs_elem_of. done.
  - apply pickRobotsByType_of_type.
  - rewrite <- of_type_nil, <- pickRobotsByType_of_type.
    split; [by intros ->|]. by intros ?%fmap_nil_inv.
Qed.

(** ** Printing *)

Lemma said_printed (message : string) (lines : list string) (s : State) :
  said lines (printed message s) = said (message :: lines) s.
Proof. unfold said, printed. simpl. by rewrite <- app_assoc. Qed.

Lemma printRobotUsageMessage_run (rs : list RobotData) (s : State) :
  printRobotUsageMessage rs s = (Ok tt, printed (usage_message rs) s).
Proof. done. Qed.

Lemma forEach_groups (types : list jsval) (s : State) :
  forEach (λ type, d ← get_data;
                   printRobotUsageMessage (snd <$> pickRobotsByType type d)) types s
  = (Ok tt, said ((λ type, usage_message (of_type type (data s))) <$> types) s).
Proof.
  revert s. induction types as [|type types IH]; intros s.
  - unfold said. simpl. rewrite app_nil_r. by destruct s.
  - cbn [forEach]. unfold mbind at 1, M_bind at 1.
    unfold mbind at 1, M_bind at 1, get_data at 1.
    rewrite printRobotUsageMessage_run, pickRobotsByType_of_type.
    rewrite IH. by rewrite said_printed.
Qed.

Lemma printAllRobots_run (s : State) :
  printAllRobots s
  = (Ok tt, said ((λ type, usage_message (of_type type (data s)))
                    <$> getAllRobotTypes (data s)) s).
Proof. unfold printAllRobots. unfold mbind, M_bind, get_data. apply forEach_groups. Qed.

Lemma printRobotsByType_run (type : jsval) (s : State) :
  printRobotsByType type s = (Ok tt, printed (check_type_message type (data s)) s).
Proof.
  unfold printRobotsByType, check_type_message. run.
  rewrite pickRobotsByType_of_type.
  rewrite <- (length_fmap snd (pickRobotsByType type (data s))), pickRobotsByType_of_type.
  by destruct (of_type type (data s)).
Qed.

Lemma strict_eq_true (a b : jsval) : strict_eq a b = true → a = b.
Proof.
  destruct a as [|s|[x|]], b as [|t|[y|]]; simpl; try done.
  - by intros ->%String.eqb_eq.
  - by intros ->%Z.eqb_eq.
Qed.

Lemma strict_eq_refl (a : jsval) : a ≠ VNum NaN → strict_eq a a = true.
Proof.
  destruct a as [|s|[x|]]; simpl; [done| | |done].
  - intros _. apply String.eqb_refl.
  - intros _. apply Z.eqb_refl.
Qed.

Lemma groups_skip (types : list jsval) (x : RobotData) (d : list RobotData) :
  robot_type x ∉ types →
  concat ((λ type, of_type type (x :: d)) <$> types)
  = concat ((λ type, of_type type d) <$> types).
Proof.
  induction types as [|t types IH]; [done|].
  intros [Hne Hnot]%not_elem_of_cons. cbn [fmap list_fmap concat].
  rewrite IH by done. f_equal. unfold of_type. simpl.
  destruct (strict_eq (robot_type x) t) eqn:E; [|done].
  by apply strict_eq_true in E.
Qed.

Lemma groups_take (types : list jsval) (x : RobotData) (d : list RobotData) :
  NoDup types → robot_type x ∈ types → robot_type x ≠ VNum NaN →
  concat ((λ type, of_type type (x :: d)) <$> types)
  ≡ₚ x :: concat ((λ type, of_type type d) <$> types).
Proof.
  intros Hnd Hin Hnan. induction types as [|t types IH]; [by apply elem_of_nil in Hin|].
  apply list.NoDup_cons in Hnd as [Ht Hnd]. cbn [fmap list_fmap concat].
  destruct (decide (robot_type x = t)) as [<-|Hne].
  - rewrite groups_skip by done. unfold of_type at 1. simpl.
    by rewrite strict_eq_refl.
  - apply elem_of_cons in Hin as [?|Hin]; [done|].
    rewrite (IH Hnd Hin). unfold of_type at 1. simpl.
    destruct (strict_eq (robot_type x) t) eqn:E; [by apply strict_eq_true in E|].
    fold (of_type t d). by rewrite Permutation_middle.
Qed.

Lemma groups_cover (types : list jsval) (d : list RobotData) :
  NoDup types →
  (∀ r, r ∈ d → robot_type r ∈ types ∧ robot_type r ≠ VNum NaN) →
  concat ((λ type, of_type type d) <$> types) ≡ₚ d.
Proof.
  intros Hnd. induction d as [|x d IH]; intros Hall.
  - clear. induction types as [|t types IH]; [done|]. by cbn [fmap list_fmap concat].
  - destruct (Hall x (list_elem_of_here _ _)) as [Hin Hnan].
    rewrite groups_take by done. f_equiv. apply IH.
    intros r Hr. apply Hall. by apply list_elem_of_further.
Qed.

(** X3. [printAllRobots] prints one message per distinct type, in the
    order of [getAllRobotTypes], each holding the usage lines of the
    records of that type in load order, and changes nothing else.  When no
    record has [NaN] as its type, the groups together hold every record
    exactly once. *)
Theorem printAllRobots_every_robot_once (s : State) :
  (∀ r, r ∈ data s → robot_type r ≠ VNum NaN) →
  let groups := (λ type, of_type type (data s)) <$> getAllRobotTypes (data s) in
  printAllRobots s = (Ok tt, said (usage_message <$> groups) s)
  ∧ concat groups ≡ₚ data s
  ∧ data (said (usage_message <$> groups) s) = data s
  ∧ file (said (usage_message <$> groups) s) = file s
  ∧ written (said (usage_message <$> groups) s) = written s.
Proof.
  intros Hnan groups. subst groups. split_and!; [| |done..].
  - rewrite printAllRobots_run. by rewrite <- list_fmap_compose.
  - apply groups_cover; [apply getAllRobotTypes_NoDup|].
    intros r Hr. split; [|by apply Hnan].
    apply getAllRobotTypes_elem_of. by exists r.
Qed.

(** X4. Once the data is loaded, [check_all] and [check_type] only print:
    [main] returns normally in the state the load left, with lines added
    to the console and nothing else changed.  [check_all] prints the
    groups of [printAllRobots]; [check_type] prints one message, the usage
    lines of the records of the type in load order or, when there is none,
    the "unavailable type" line with the distinct types. *)
Theorem main_check_commands_only_print (argv : list string) (s s1 : State) :
  loadData s = (Ok tt, s1) →
  (argument argv 2 = VStr "check_all" →
   main argv s
   = (Ok tt, said ((λ type, usage_message (of_type type (data s1)))
                     <$> getAllRobotTypes (data s1)) s1))
  ∧ (argument argv 2 = VStr "check_type" →
     main argv s = (Ok tt, printed (check_type_message (argument argv 3) (data s1)) s1)).
Proof.
  intros Hload. rewrite (main_loaded argv s s1 Hload). cbv zeta. split.
  - intros ->. simpl. apply printAllRobots_run.
  - intros ->. simpl. apply printRobotsByType_run.
Qed.

(** ** Outcomes of a load *)

Lemma obj_rest_keys (ks : list string) (o : obj) (k : string) :
  k ∈ ks → k ∉ (obj_rest ks o).*1.
Proof.
  intros Hk. unfold obj_rest. induction o as [|[k' v] o IH]; [by intros ?%elem_of_nil|].
  rewrite filter_cons. simpl. case_decide as Hk'; [|done].
  cbn [fmap list_fmap fst]. intros [->|Hin]%elem_of_cons; [done|by apply IH].
Qed.

Lemma absent_or_set_or_undefined (v : jsval) : absent_or_set (or_undefined v).
Proof.
  unfold absent_or_set, or_undefined. destruct (truthy v) eqn:E; [by right|by left].
Qed.

Lemma well_parsed_normalise (row : obj) : well_parsed (normalise row).
Proof.
  unfold well_parsed, normalise. simpl.
  split_and!; try apply absent_or_set_or_undefined.
  intros k Hk. by apply obj_rest_keys.
Qed.

Lemma well_parsed_sweep (now : num) (r : RobotData) :
  well_parsed r → well_parsed (sweep now r).
Proof.
  unfold sweep. destruct (expired now r); [|done].
  intros (_ & _ & _ & Hkeys). unfold well_parsed, absent_or_set. simpl.
  split_and!; [by left..|done].
Qed.

(** X5. What [loadData] leaves in memory after a load that went through:
    on every record each of [used_by], [start_time] and [end_time] is
    absent or truthy (never an empty string or a zero), and none of the
    three names is left among the record's other properties. *)
Theorem loadData_well_parsed (s s1 : State) :
  loadData s = (Ok tt, s1) → Forall well_parsed (data s1).
Proof.
  intros Hload.
  destruct (file s) as [input|] eqn:Hfile;
    [|by rewrite (loadData_unreadable s Hfile) in Hload].
  destruct (parse parser input) as [rows|e] eqn:Hparse;
    [|by rewrite (loadData_malformed s input e Hfile Hparse) in Hload].
  pose proof (loadData_data s input rows Hfile Hparse) as Hdata.
  rewrite Hload in Hdata. simpl in Hdata. rewrite Hdata.
  apply Forall_fmap, Forall_fmap, list.Forall_forall.
  intros row _. apply well_parsed_sweep, well_parsed_normalise.
Qed.

(** X6. The outcomes of [loadData].  It returns normally exactly when the
    file can be read, parses, and either can be written or holds no
    expired reservation.  An unreadable file or a parse error is thrown on
    with the state untouched.  When an expired reservation is found and
    the file cannot be written, the error of the write is thrown: the
    records in memory are cleared, the file is not. *)
Theorem loadData_outcomes (s : State) :
  let now := Fin (clock s (ticks s)) in
  ((loadData s).1 = Ok tt
   ↔ ∃ input rows, file s = Some input ∧ parse parser input = Ok rows
       ∧ (writable s = true ∨ existsb (expired now) (normalise <$> rows) = false))
  ∧ (file s = None → loadData s = (Throw IOError, s))
  ∧ (∀ input e, file s = Some input → parse parser input = Throw e →
       loadData s = (Throw e, s))
  ∧ (∀ input rows, file s = Some input → parse parser input = Ok rows →
       writable s = false → existsb (expired now) (normalise <$> rows) = true →
       (loadData s).1 = Throw IOError
       ∧ data (loadData s).2 = sweep now <$> (normalise <$> rows)
       ∧ file (loadData s).2 = file s
       ∧ written (loadData s).2 = written s).
Proof.
  intros now. split_and!.
  - split.
    + intros Hok.
      destruct (file s) as [input|] eqn:Hfile;
        [|by rewrite (loadData_unreadable s Hfile) in Hok].
      destruct (parse parser input) as [rows|e] eqn:Hparse;
        [|by rewrite (loadData_malformed s input e Hfile Hparse) in Hok].
      exists input, rows. split_and!; [done..|].
      rewrite (loadData_run s input rows Hfile Hparse) in Hok. fold now in Hok.
      destruct (existsb _ _); [|by right].
      destruct (writable s); [by left|done].
    + intros (input & rows & Hfile & Hparse & Hcan).
      rewrite (loadData_run s input rows Hfile Hparse). fold now.
      destruct (existsb _ _); [|done].
      destruct Hcan as [->|?]; done.
  - apply loadData_unreadable.
  - apply loadData_malformed.
  - intros input rows Hfile Hparse Hw Hex.
    rewrite (loadData_run s input rows Hfile Hparse). fold now.
    by rewrite Hex, Hw.
Qed.

(** ** A second expiry pass *)

Lemma expired_sweep (now : num) (r : RobotData) : expired now (sweep now r) = false.
Proof.
  unfold sweep. destruct (expired now r) eqn:E; [done|exact E].
Qed.

Lemma sweep_sweep (now : num) (r : RobotData) : sweep now (sweep now r) = sweep now r.
Proof. unfold sweep at 1. by rewrite expired_sweep. Qed.

Lemma existsb_expired_sweep (now : num) (d : list RobotData) :
  existsb (expired now) (sweep now <$> d) = false.
Proof.
  induction d as [|r d IH]; [done|]. cbn [fmap list_fmap existsb].
  cbn [fmap] in IH. by rewrite expired_sweep, IH.
Qed.

(** X7. The expiry pass keeps the list's length and order and every
    record's other properties ([id], [alias], [type]); a record without
    [used_by] is left as it is, and any other record is either left as it
    is or has its three reservation fields cleared.  A second pass at the
    same clock reading finds nothing expired: it returns [false] and
    changes no record. *)
Theorem expiry_pass_is_idempotent (s : State) :
  let now := Fin (clock s (ticks s)) in
  let s' := (checkAndClearExpiredRobots s).2 in
  length (data s') = length (data s)
  ∧ (∀ i r, data s !! i = Some r →
       ∃ r', data s' !! i = Some r' ∧ required r' = required r
             ∧ (truthy (used_by r) = false → r' = r)
             ∧ (r' = r ∨ r' = mkRobot (required r) VUndef VUndef VUndef))
  ∧ (clock s (S (ticks s)) = clock s (ticks s) →
     checkAndClearExpiredRobots s' = (Ok false, ticked s')).
Proof.
  intros now s'. subst s'. rewrite checkAndClearExpiredRobots_sweep. fold now.
  cbn [snd data]. split_and!.
  - by rewrite length_fmap.
  - intros i r Hi. exists (sweep now r). rewrite list_lookup_fmap, Hi.
    split_and!; [done| | |].
    + unfold sweep. by destruct (expired now r).
    + intros Hfree. unfold sweep, expired. by rewrite Hfree.
    + unfold sweep. destruct (expired now r); [by right|by left].
  - intros Hstill. rewrite checkAndClearExpiredRobots_sweep. cbn [clock ticks data].
    rewrite Hstill. fold now. rewrite existsb_expired_sweep.
    unfold ticked. cbn. do 2 f_equal.
    rewrite <- list_fmap_compose. apply list_fmap_ext. intros j r _. apply sweep_sweep.
Qed.

(** ** Durations under a fixed zone offset *)

Lemma end_of_reservation_fixed_zone (tz t1 t2 m : Z) :
  (∀ u b, LocalTZA u b = tz) →
  end_of_reservation t1 t2 (Fin m)
  = TimeClip (t2 + (MinFromTime (t1 + tz) - MinFromTime (t2 + tz) + m) * msPerMinute).
Proof.
  intros Htz. unfold end_of_reservation, setMinutes, getMinutes, num_add.
  unfold UTC, LocalTime. rewrite !Htz. f_equal.
  replace (MinFromTime (t1 + tz) + m)
    with (MinFromTime (t2 + tz) + (MinFromTime (t1 + tz) - MinFromTime (t2 + tz) + m))
    by lia.
  rewrite MakeTime_add_minutes. unfold MakeDate at 1.
  rewrite Z.add_assoc. fold (MakeDate (Day (t2 + tz))
    (MakeTime (HourFromTime (t2 + tz)) (MinFromTime (t2 + tz)) (SecFromTime (t2 + tz))
       (msFromTime (t2 + tz)))).
  rewrite time_fields. lia.
Qed.

Lemma MinFromTime_same_minute (a b : Z) :
  a / msPerMinute = b / msPerMinute → MinFromTime a = MinFromTime b.
Proof. unfold MinFromTime. by intros ->. Qed.

Lemma TimeClip_out_of_range (e : Z) :
  8640000000000000 < Z.abs e → TimeClip e = NaN.
Proof. intros H. unfold TimeClip. by rewrite (proj2 (Z.leb_gt _ _) H). Qed.

(** X8. [makeDurationTime] on a host whose zone offset is fixed, for a
    duration that is an integer number of minutes.  The start is the first
    clock reading.  The end is [TimeClip] of the instant [e], the second
    reading moved by [durationMin] minutes plus the difference between the
    local minute of the first reading and that of the second: [e] itself
    when it lies within the [Date] range of 8640000000000000 ms around the
    epoch, [NaN] beyond it.  [e] is [durationMin] minutes after the start
    exactly when both readings are the same instant, and [durationMin]
    minutes plus the delay after it when they fall in the same local minute.
    A [NaN] duration gives a [NaN] end, and an omitted duration is 60. *)
Theorem makeDurationTime_fixed_zone (tz m : Z) (s : State) :
  let t1 := clock s (ticks s) in
  let t2 := clock s (S (ticks s)) in
  let e := t2 + (MinFromTime (t1 + tz) - MinFromTime (t2 + tz) + m) * msPerMinute in
  (∀ u b, LocalTZA u b = tz) →
  makeDurationTime (Some (Fin m)) s = (Ok (Fin t1, TimeClip e), ticked (ticked s))
  ∧ (Z.abs e <= 8640000000000000 → TimeClip e = Fin e)
  ∧ (8640000000000000 < Z.abs e → TimeClip e = NaN)
  ∧ (t2 = t1 → e - t1 = m * msPerMinute)
  ∧ ((t1 + tz) / msPerMinute = (t2 + tz) / msPerMinute →
     e - t1 = m * msPerMinute + (t2 - t1))
  ∧ makeDurationTime (Some NaN) s = (Ok (Fin t1, NaN), ticked (ticked s))
  ∧ makeDurationTime None s = makeDurationTime (Some (Fin 60)) s.
Proof.
  intros t1 t2 e Htz. split_and!.
  - rewrite makeDurationTime_run. fold t1 t2.
    change (default_duration (Some (Fin m))) with (Fin m).
    by rewrite (end_of_reservation_fixed_zone tz t1 t2 m Htz).
  - apply TimeClip_in_range.
  - apply TimeClip_out_of_range.
  - intros Heq. subst e. rewrite Heq. lia.
  - intros Hmin. subst e. rewrite (MinFromTime_same_minute _ _ Hmin). lia.
  - done.
  - done.
Qed.

(** ** Outcomes of a reservation *)

Lemma alter_reserve (robot : nat) (f : RobotData → RobotData) (d : list RobotData)
    (r : RobotData) :
  d !! robot = Some r → alter f robot d = <[robot := f r]> d.
Proof.
  intros Hr. rewrite list_insert_alter. apply list_alter_ext; [|done].
  intros x Hx. rewrite Hr in Hx. by injection Hx as <-.
Qed.

(** X9. [useRobot] on a record of the list.  It reads the clock twice,
    sets [used_by] to the user, [start_time] to the first reading and
    [end_time] to the computed end on that record alone, keeping its other
    properties, and serialises the whole list.  When the write succeeds
    the file holds the serialisation and the record's usage line is
    printed; when it fails the error is thrown, nothing is printed and the
    file is unchanged, but the record in memory stays reserved. *)
Theorem useRobot_outcomes (robot : nat) (user : jsval) (durationMin : option num)
    (s : State) (r : RobotData) :
  data s !! robot = Some r →
  let t1 := clock s (ticks s) in
  let t2 := clock s (S (ticks s)) in
  let r' := mkRobot (required r) user (VNum (Fin t1))
              (VNum (end_of_reservation t1 t2 (default_duration durationMin))) in
  let d' := <[robot := r']> (data s) in
  let text := stringify parser (to_obj <$> d') in
  (writable s = true →
   useRobot robot user durationMin s
   = (Ok tt, mkState (Some text) true (clock s) (S (S (ticks s)))
               (stdout s ++ [usage_line r']) (written s ++ [text]) d'))
  ∧ (writable s = false →
     useRobot robot user durationMin s
     = (Throw IOError, mkState (file s) false (clock s) (S (S (ticks s)))
                         (stdout s) (written s) d'))
  ∧ d' !! robot = Some r'
  ∧ (∀ j, j ≠ robot → d' !! j = data s !! j)
  ∧ length d' = length (data s).
Proof.
  intros Hr t1 t2 r' d' text.
  assert (Hd : alter (reserve user (Fin t1)
                        (end_of_reservation t1 t2 (default_duration durationMin)))
                 robot (data s) = d').
  { exact (alter_reserve robot _ (data s) r Hr). }
  assert (Hlt : (robot < length (data s))%nat) by (by eapply lookup_lt_Some).
  assert (Hr' : d' !! robot = Some r') by (by apply list_lookup_insert_eq).
  split_and!.
  - intros Hw. rewrite useRobot_run, Hw. fold t1 t2. rewrite Hd. fold text.
    rewrite Hr'. done.
  - intros Hw. rewrite useRobot_run, Hw. fold t1 t2. by rewrite Hd.
  - done.
  - intros j Hj. by apply list_lookup_insert_ne.
  - apply length_insert.
Qed.

(** X10. Which record a reservation request reaches.  A request by id,
    or by alias, goes to the first record carrying that id, or alias, and
    reserves it when its [used_by] is not set; a request by type goes to
    the first record of the type whose [used_by] is not set.  In each case
    the request then behaves as [useRobot] on that record, with the
    duration defaulted to 60. *)
Theorem requests_reach_first_match (key : string) (user : jsval)
    (durationMin : option num) (s : State) (i : nat) (r : RobotData) :
  data s !! i = Some r →
  truthy (used_by r) = false →
  (robot_id r = VStr key →
   (∀ j r', (j < i)%nat → data s !! j = Some r' → robot_id r' ≠ VStr key) →
   useRobotById (VStr key) user durationMin s
   = useRobot i user (Some (default_duration durationMin)) s)
  ∧ (robot_alias r = VStr key →
     (∀ j r', (j < i)%nat → data s !! j = Some r' → robot_alias r' ≠ VStr key) →
     useRobotByAlias (VStr key) user durationMin s
     = useRobot i user (Some (default_duration durationMin)) s)
  ∧ (robot_type r = VStr key →
     (∀ j r', (j < i)%nat → data s !! j = Some r' →
              ¬ (robot_type r' = VStr key ∧ truthy (used_by r') = false)) →
     useRobotByType (VStr key) user durationMin s
     = useRobot i user (Some (default_duration durationMin)) s).
Proof.
  intros Hi Hfree. split_and!.
  - intros Hid Hfirst. by apply (useRobotById_free key _ _ s i r).
  - intros Hid Hfirst. by apply (useRobotByAlias_free key _ _ s i r).
  - intros Ht Hfirst. apply (useRobotByType_free _ _ _ s i r).
    by apply pickFreeRobot_first.
Qed.

(** ** Operations in sequence *)

Lemma useRobot_clock (robot : nat) (user : jsval) (durationMin : option num) (s : State) :
  clock (useRobot robot user durationMin s).2 = clock s
  ∧ ticks (useRobot robot user durationMin s).2 = S (S (ticks s)).
Proof. rewrite useRobot_run. by destruct (writable s). Qed.

Lemma useRobot_lookup (robot : nat) (user : jsval) (durationMin : option num)
    (s : State) (r : RobotData) :
  data s !! robot = Some r →
  data (useRobot robot user durationMin s).2 !! robot
  = Some (reserve user (Fin (clock s (ticks s)))
            (end_of_reservation (clock s (ticks s)) (clock s (S (ticks s)))
               (default_duration durationMin)) r).
Proof. intros Hr. by rewrite useRobot_data, list_lookup_alter_eq, Hr. Qed.

Lemma useRobot_lookup_ne (robot j : nat) (user : jsval) (durationMin : option num)
    (s : State) :
  j ≠ robot → data (useRobot robot user durationMin s).2 !! j = data s !! j.
Proof. intros Hj. by rewrite useRobot_data, list_lookup_alter_ne. Qed.

(** X11. A record reserved for a user that counts as set is taken from
    then on: [pickFreeRobot] no longer returns it for any type, and a
    further request for it by id, or by alias, is rejected with its usage
    line, leaving the state as the reservation left it (whether or not the
    write went through). *)
Theorem reserved_robot_is_taken (key : string) (user user2 : jsval)
    (durationMin durationMin2 : option num) (s : State) (i : nat) (r : RobotData) :
  data s !! i = Some r →
  truthy user = true →
  let s' := (useRobot i user durationMin s).2 in
  ∃ r', data s' !! i = Some r' ∧ used_by r' = user ∧ required r' = required r
    ∧ (∀ type j x, pickFreeRobot type (data s') = Some (j, x) → j ≠ i)
    ∧ (robot_id r = VStr key →
       (∀ j x, (j < i)%nat → data s !! j = Some x → robot_id x ≠ VStr key) →
       useRobotById (VStr key) user2 durationMin2 s' = (Ok tt, printed (usingMessage r') s'))
    ∧ (robot_alias r = VStr key →
       (∀ j x, (j < i)%nat → data s !! j = Some x → robot_alias x ≠ VStr key) →
       useRobotByAlias (VStr key) user2 durationMin2 s'
       = (Ok tt, printed (usingMessage r') s')).
Proof.
  intros Hi Huser s'. subst s'.
  pose proof (useRobot_lookup i user durationMin s r Hi) as Hr'.
  eexists. split; [exact Hr'|]. split_and!; [done..| | |].
  - intros type j x Hpick ->. rewrite pickFreeRobot_find in Hpick.
    apply list_find_Some in Hpick as (Hx & Hfree & _).
    rewrite Hr' in Hx. injection Hx as <-.
    unfold free_of_type in Hfree. simpl in Hfree. rewrite Huser in Hfree.
    by rewrite andb_false_r in Hfree.
  - intros Hid Hfirst. eapply useRobotById_reserved; [exact Hr'|done| |done].
    intros j x Hj Hx. rewrite useRobot_lookup_ne in Hx by lia. eauto.
  - intros Hid Hfirst. eapply useRobotByAlias_reserved; [exact Hr'|done| |done].
    intros j x Hj Hx. rewrite useRobot_lookup_ne in Hx by lia. eauto.
Qed.

(** X12. Requests by type go down the list: after the first free record
    of a type has been reserved for a user that counts as set, the next
    free record of that type, if any, lies later in the list and is a
    record the reservation did not touch. *)
Theorem next_free_robot_is_later (type user : jsval) (durationMin : option num)
    (s : State) (i : nat) (r : RobotData) :
  pickFreeRobot type (data s) = Some (i, r) →
  truthy user = true →
  let s' := (useRobotByType type user durationMin s).2 in
  ∀ j x, pickFreeRobot type (data s') = Some (j, x) →
         (i < j)%nat ∧ data s !! j = Some x.
Proof.
  intros Hpick Huser s' j x Hnext. subst s'.
  rewrite (useRobotByType_free type user durationMin s i r Hpick) in Hnext.
  rewrite pickFreeRobot_find in Hpick, Hnext.
  apply list_find_Some in Hpick as (Hi & Hfree & Hfirst).
  apply list_find_Some in Hnext as (Hx & Hfreex & _).
  destruct (decide (j = i)) as [->|Hne].
  - rewrite (useRobot_lookup i user _ s r Hi) in Hx. injection Hx as <-.
    unfold free_of_type in Hfreex. simpl in Hfreex. rewrite Huser in Hfreex.
    by rewrite andb_false_r in Hfreex.
  - rewrite useRobot_lookup_ne in Hx by done. split; [|done].
    destruct (decide (j < i)%nat) as [Hlt|]; [|lia].
    by destruct (Hfirst j x Hx Hlt).
Qed.

(** X13. A reservation followed by an expiry pass, on a host whose zone
    offset is fixed and whose clock stood still while the reservation was
    made at [t], for a duration that is an integer number of minutes.  When
    the end [t + durationMin] minutes lies within the [Date] range, the
    pass, reading the clock at [now], clears the record when [now] is past
    the end and keeps the reservation otherwise; in particular a reservation
    of a negative duration is then cleared by the next pass unless the clock
    went back.  When the end lies beyond the range, the stored [end_time] is
    [NaN] and no pass ever clears the reservation. *)
Theorem reservation_then_expiry (user : jsval) (m tz : Z) (s : State) (i : nat)
    (r : RobotData) :
  data s !! i = Some r →
  truthy user = true →
  (∀ u b, LocalTZA u b = tz) →
  clock s (S (ticks s)) = clock s (ticks s) →
  let t := clock s (ticks s) in
  let now := clock s (S (S (ticks s))) in
  let e := t + m * msPerMinute in
  let s' := (useRobot i user (Some (Fin m)) s).2 in
  let s'' := (checkAndClearExpiredRobots s').2 in
  data s' !! i = Some (mkRobot (required r) user (VNum (Fin t)) (VNum (TimeClip e)))
  ∧ (Z.abs e <= 8640000000000000 →
     data s'' !! i
     = Some (if e <? now
             then mkRobot (required r) VUndef VUndef VUndef
             else mkRobot (required r) user (VNum (Fin t)) (VNum (Fin e))))
  ∧ (Z.abs e <= 8640000000000000 → m < 0 → t <= now →
     data s'' !! i = Some (mkRobot (required r) VUndef VUndef VUndef))
  ∧ (8640000000000000 < Z.abs e →
     data s'' !! i = Some (mkRobot (required r) user (VNum (Fin t)) (VNum NaN))).
Proof.
  intros Hi Huser Htz Hstill t now e s' s''.
  assert (Hreserved : data s' !! i
            = Some (mkRobot (required r) user (VNum (Fin t)) (VNum (TimeClip e)))).
  { subst s'. rewrite (useRobot_lookup i user _ s r Hi), Hstill. fold t.
    change (default_duration (Some (Fin m))) with (Fin m).
    rewrite (end_of_reservation_fixed_zone tz t t m Htz).
    unfold reserve. do 4 f_equal. subst e. lia. }
  assert (Hpass : data s'' !! i
            = Some (sweep (Fin now)
                      (mkRobot (required r) user (VNum (Fin t)) (VNum (TimeClip e))))).
  { subst s''. rewrite checkAndClearExpiredRobots_sweep.
    destruct (useRobot_clock i user (Some (Fin m)) s) as [Hclock Hticks].
    fold s' in Hclock, Hticks. rewrite Hclock, Hticks. fold now.
    cbn [snd data]. by rewrite list_lookup_fmap, Hreserved. }
  assert (Hmain : Z.abs e <= 8640000000000000 →
            data s'' !! i
            = Some (if e <? now
                    then mkRobot (required r) VUndef VUndef VUndef
                    else mkRobot (required r) user (VNum (Fin t)) (VNum (Fin e)))).
  { intros Hrange. rewrite Hpass, (TimeClip_in_range e Hrange). f_equal.
    unfold sweep, expired. cbn [used_by end_time required Date_of].
    by rewrite Huser, (TimeClip_in_range e Hrange). }
  split_and!; [exact Hreserved|exact Hmain| |].
  - intros Hrange Hneg Hnow. rewrite (Hmain Hrange).
    subst e. unfold msPerMinute. by rewrite (proj2 (Z.ltb_lt _ _)) by lia.
  - intros Hrange. rewrite Hpass, (TimeClip_out_of_range e Hrange). f_equal.
    unfold sweep, expired. cbn [used_by end_time Date_of num_gt].
    by rewrite andb_false_r.
Qed.

(** X14. The duration argument of the command line.  Leaving it out and
    passing an empty string are the same request, and both are the
    request for 60 minutes whenever [Number] reads "60" as 60. *)
Theorem main_duration_defaults_to_60 (node script command arg1 arg2 : string) (s : State) :
  main [node; script; command; arg1; arg2; ""] s = main [node; script; command; arg1; arg2] s
  ∧ (Number "60" = Fin 60 →
     main [node; script; command; arg1; arg2; "60"] s
     = main [node; script; command; arg1; arg2] s).
Proof.
  split; [done|]. intros H60. unfold main. cbn [argument lookup list_lookup from_option].
  unfold duration_argument. simpl truthy. cbv iota. by rewrite H60.
Qed.

End Manager.

(** ** Round trips through the codec *)

Ltac find_elem := repeat first [apply list_elem_of_here | apply list_elem_of_further].

Lemma append_nil (s : string) : "" +:+ s = s.
Proof. done. Qed.

Lemma append_cons (a : ascii) (x s : string) : String a x +:+ s = String a (x +:+ s).
Proof. done. Qed.

Lemma split_on_free (c : ascii) (s : string) :
  occurs c s = false → split_on c s = [s].
Proof.
  induction s as [|a s IH]; [done|]. cbn [occurs split_on].
  intros [Ha Hs]%orb_false_iff. by rewrite Ha, (IH Hs).
Qed.

Lemma split_on_app (c : ascii) (x rest : string) :
  occurs c x = false →
  split_on c (x +:+ String c rest) = x :: split_on c rest.
Proof.
  induction x as [|a x IH]; rewrite ?append_nil, ?append_cons; cbn [occurs split_on].
  - intros _. by rewrite Ascii.eqb_refl.
  - intros [Ha Hx]%orb_false_iff. by rewrite Ha, (IH Hx).
Qed.

Lemma occurs_app (c : ascii) (x y : string) :
  occurs c (x +:+ y) = occurs c x || occurs c y.
Proof.
  induction x as [|a x IH]; rewrite ?append_nil, ?append_cons; cbn [occurs]; [done|].
  by rewrite IH, orb_assoc.
Qed.

Lemma occurs_uint (c : ascii) (d : Decimal.uint) :
  no_digit c → occurs c (NilEmpty.string_of_uint d) = false.
Proof.
  unfold no_digit, DIGITS. intros Hc. cbn [list_ascii_of_string] in Hc.
  rewrite list.Forall_forall in Hc.
  induction d; cbn [NilEmpty.string_of_uint occurs]; [done|..];
    rewrite IHd, orb_false_r; apply Hc; find_elem.
Qed.

Lemma digits_value_uint (d : Decimal.uint) :
  d ≠ Decimal.Nil → digits_value (NilEmpty.string_of_uint d) = Some (Z.of_uint d).
Proof.
  intros Hd. unfold digits_value. rewrite NilEmpty.usu.
  destruct d; done.
Qed.

(** What [decimal_digits] writes for a non-negative integer: the digits
    of a numeral that denotes it. *)
Lemma decimal_digits_nonneg (x : Z) :
  0 <= x →
  ∃ d, d ≠ Decimal.Nil ∧ decimal_digits x = NilEmpty.string_of_uint d ∧ Z.of_uint d = x.
Proof.
  intros Hx. destruct x as [|p|p]; [| |lia].
  - by exists (Decimal.D0 Decimal.Nil).
  - exists (Pos.to_uint p). split; [apply Unsigned.to_uint_nonnil|].
    unfold decimal_digits. cbn [Z.to_int NilZero.string_of_int].
    unfold NilZero.string_of_uint, Z.of_uint. rewrite Unsigned.of_to.
    pose proof (Unsigned.to_uint_nonnil p). by destruct (Pos.to_uint p).
Qed.

Lemma decimal_digits_neg (z : Z) :
  z < 0 → decimal_digits z = String "-" (decimal_digits (- z)).
Proof. intros Hz. destruct z as [|p|p]; [lia..|]. done. Qed.

(** *** Blanks, signs and marks *)

Lemma blank_free_cons (a : ascii) (s : string) :
  blank_free (String a s) ↔ is_blank a = false ∧ blank_free s.
Proof.
  unfold blank_free, is_blank, BLANKS. rewrite !list.Forall_cons. cbn [occurs existsb].
  rewrite !orb_false_iff. rewrite !list.Forall_nil. tauto.
Qed.

Lemma rtrim_free (s : string) : blank_free s → rtrim s = s.
Proof.
  induction s as [|a s IH]; [done|].
  intros [Ha Hs]%blank_free_cons. cbn [rtrim]. rewrite (IH Hs), Ha.
  by destruct s.
Qed.

Lemma trim_free (s : string) : blank_free s → trim s = s.
Proof.
  intros Hs. unfold trim.
  assert (ltrim s = s) as ->; [|by apply rtrim_free].
  destruct s as [|a s]; [done|].
  apply blank_free_cons in Hs as [Ha _]. cbn [ltrim]. by rewrite Ha.
Qed.

Lemma lower_e_free (s : string) : occurs "E" s = false → lower_e s = s.
Proof.
  induction s as [|a s IH]; [done|]. cbn [occurs lower_e].
  intros [Ha Hs]%orb_false_iff. by rewrite Ha, (IH Hs).
Qed.

Lemma Forall_no_digit_blanks : Forall no_digit BLANKS.
Proof. unfold BLANKS, no_digit, DIGITS. cbn [list_ascii_of_string]. repeat constructor. Qed.

Lemma blank_free_uint (d : Decimal.uint) : blank_free (NilEmpty.string_of_uint d).
Proof.
  unfold blank_free. eapply list.Forall_impl; [exact Forall_no_digit_blanks|].
  intros b Hb. by apply occurs_uint.
Qed.

(** A numeral starts with a digit. *)
Lemma uint_head (d : Decimal.uint) :
  d ≠ Decimal.Nil →
  ∃ a rest, NilEmpty.string_of_uint d = String a rest
            ∧ existsb (Ascii.eqb a) DIGITS = true.
Proof. intros Hd. destruct d; [done|..]; by eexists _, _. Qed.

(** *** Literals as [Number::toString] writes them *)

Lemma digit_no_sign (a : ascii) :
  existsb (Ascii.eqb a) DIGITS = true →
  Ascii.eqb a "-" = false ∧ Ascii.eqb a "+" = false.
Proof.
  unfold DIGITS. cbn [list_ascii_of_string existsb]. rewrite !orb_true_iff.
  intros H. repeat (destruct H as [H|H]; [apply Ascii.eqb_eq in H as ->; done|]). done.
Qed.

Lemma literal_value_rendering (negative : bool) (u : string) (v : Z) :
  rendering u v →
  literal_value ((if negative then "-" else "")%string +:+ u)
  = Some (if negative then - v else v).
Proof.
  intros (Hblank & _ & (a & rest & -> & Ha) & Hvalue).
  apply digit_no_sign in Ha as [Hminus Hplus].
  unfold literal_value. destruct negative; rewrite ?append_cons, append_nil.
  - rewrite trim_free.
    + cbn [signed]. rewrite Ascii.eqb_refl. by rewrite Hvalue.
    + apply blank_free_cons. split; [done|exact Hblank].
  - rewrite trim_free by done. cbn [signed]. rewrite Hminus, Hplus. by rewrite Hvalue.
Qed.

Lemma no_digit_marks : no_digit "e" ∧ no_digit "E" ∧ no_digit "." ∧ no_digit "+".
Proof. unfold no_digit, DIGITS. cbn [list_ascii_of_string]. split_and!; repeat constructor. Qed.

Lemma no_digit_comma : no_digit COMMA.
Proof. unfold no_digit, DIGITS. cbn [list_ascii_of_string]. repeat constructor. Qed.

Lemma scaled_digits (d : Decimal.uint) (e : Z) :
  d ≠ Decimal.Nil → 0 <= e <= 400 →
  scaled (NilEmpty.string_of_uint d) e = Some (Z.of_uint d * 10 ^ e).
Proof.
  intros Hd He. destruct no_digit_marks as (_ & _ & Hdot & _).
  unfold scaled, mantissa_value. rewrite split_on_free by (by apply occurs_uint).
  rewrite digits_value_uint by done. cbn. rewrite Z.sub_0_r.
  destruct (Z.of_uint d =? 0) eqn:E0.
  - apply Z.eqb_eq in E0 as ->. done.
  - rewrite (proj2 (Z.leb_le 0 e)) by lia. by rewrite (proj2 (Z.leb_le e 400)) by lia.
Qed.

Lemma rendering_uint (d : Decimal.uint) :
  d ≠ Decimal.Nil → rendering (NilEmpty.string_of_uint d) (Z.of_uint d).
Proof.
  intros Hd. destruct no_digit_marks as (He & HE & _ & _).
  split_and!; [apply blank_free_uint|apply occurs_uint, no_digit_comma|by apply uint_head|].
  unfold unsigned_value. rewrite lower_e_free by (by apply occurs_uint).
  rewrite split_on_free by (by apply occurs_uint).
  rewrite scaled_digits by (done || lia). f_equal. lia.
Qed.

Lemma rendering_digits (x : Z) : 0 <= x → rendering (decimal_digits x) x.
Proof.
  intros Hx. destruct (decimal_digits_nonneg x Hx) as (d & Hd & -> & <-).
  by apply rendering_uint.
Qed.

Lemma strip_zeros_spec (fuel : nat) (v j0 : Z) :
  0 < v → 0 <= j0 →
  0 < (strip_zeros fuel v j0).1 ∧ j0 <= (strip_zeros fuel v j0).2
  ∧ (strip_zeros fuel v j0).1 * 10 ^ ((strip_zeros fuel v j0).2 - j0) = v.
Proof.
  revert v j0. induction fuel as [|fuel IH]; intros v j0 Hv Hj; cbn [strip_zeros].
  - cbn [fst snd]. rewrite Z.sub_diag. lia.
  - destruct (v mod 10 =? 0) eqn:E.
    + apply Z.eqb_eq in E.
      pose proof (Z.div_mod v 10 ltac:(lia)) as Hdiv.
      destruct (IH (v / 10) (j0 + 1) ltac:(lia) ltac:(lia)) as (Hs & Hle & Hval).
      split_and!; [done|lia|].
      replace ((strip_zeros fuel (v / 10) (j0 + 1)).2 - j0)
        with (Z.succ ((strip_zeros fuel (v / 10) (j0 + 1)).2 - (j0 + 1))) by lia.
      rewrite Z.pow_succ_r by lia. lia.
    + cbn [fst snd]. rewrite Z.sub_diag. lia.
Qed.

(** What rounds to a double is below [2 ^ 1024]. *)
Lemma nearest_double_bound (v y : Z) :
  0 <= v → nearest_double v = Some y → v < 2 ^ 1024.
Proof.
  intros Hv. unfold nearest_double.
  destruct (v <? 2 ^ 53) eqn:Esmall.
  { intros _. apply Z.ltb_lt in Esmall.
    assert (2 ^ 53 < 2 ^ 1024) by (apply Z.pow_lt_mono_r; lia). lia. }
  apply Z.ltb_ge in Esmall. cbv zeta.
  set (L := Z.log2 v). set (e := L - 52).
  assert (Hpos : 0 < v) by (assert (0 < 2 ^ 53) by (by apply Z.pow_pos_nonneg); lia).
  destruct (Z.log2_spec v Hpos) as [Hlo Hhi]. fold L in Hlo, Hhi.
  assert (HL : 53 <= L).
  { apply Z.log2_le_pow2; [done|]. done. }
  set (q := v / 2 ^ e).
  assert (Hq : 2 ^ 52 <= q).
  { unfold q. replace (2 ^ 52) with (2 ^ L / 2 ^ e).
    - apply Z.div_le_mono; [by apply Z.pow_pos_nonneg; lia|done].
    - rewrite <- Z.pow_sub_r by lia. f_equal. lia. }
  match goal with |- context [?t * 2 ^ e <? 2 ^ 1024] => set (q' := t) end.
  assert (Hq' : q <= q').
  { subst q'. repeat destruct (_ <? _); try destruct (Z.even q); lia. }
  destruct (q' * 2 ^ e <? 2 ^ 1024) eqn:Ey; [|done]. intros _.
  apply Z.ltb_lt in Ey.
  assert (He : 0 < 2 ^ e) by (apply Z.pow_pos_nonneg; lia).
  assert (2 ^ L <= q' * 2 ^ e).
  { replace (2 ^ L) with (2 ^ 52 * 2 ^ e).
    - apply Z.mul_le_mono_nonneg_r; lia.
    - rewrite <- Z.pow_add_r by lia. f_equal. lia. }
  assert (L < 1024).
  { apply (Z.pow_lt_mono_r_iff 2); lia. }
  assert (2 ^ Z.succ L <= 2 ^ 1024) by (apply Z.pow_le_mono_r; lia).
  lia.
Qed.

Lemma with_digits_rounds (x k v : Z) :
  with_digits x k = Some v → nearest_double v = Some x.
Proof.
  unfold with_digits. cbv zeta.
  repeat match goal with
         | |- context [bool_decide ?P] => destruct (bool_decide_reflect P)
         end; intros [= <-]; repeat destruct (_ <? _); try destruct (Z.even _); done.
Qed.

Lemma shortest_rounds (x : Z) :
  nearest_double x = Some x → nearest_double (shortest x) = Some x.
Proof.
  intros Hx. unfold shortest. generalize 1. generalize 17%nat.
  intros fuel. induction fuel as [|fuel IH]; intros k; cbn [shortest_from]; [done|].
  destruct (with_digits x k) as [v|] eqn:E; [|apply IH].
  by apply with_digits_rounds in E.
Qed.

Lemma occurs_exponential (c a : ascii) (rest : string) (dN : Decimal.uint) :
  occurs c (String a rest) = false →
  Ascii.eqb "." c = false → Ascii.eqb "e" c = false → Ascii.eqb "+" c = false →
  no_digit c →
  occurs c (String a (match rest with EmptyString => "" | _ => "." +:+ rest end)
            +:+ "e+" +:+ NilEmpty.string_of_uint dN) = false.
Proof.
  cbn [occurs]. intros [Ha Hrest]%orb_false_iff Hdot He Hplus Hc.
  rewrite append_cons. cbn [occurs]. rewrite Ha, !occurs_app. cbn [occurs].
  rewrite He, Hplus, (occurs_uint c dN Hc). cbn [orb]. rewrite orb_false_r.
  destruct rest; [done|]. rewrite append_cons, append_nil. cbn [occurs] in *.
  by rewrite Hdot, Hrest.
Qed.

Lemma rendering_exponential (v : Z) :
  0 < v → v < 2 ^ 1024 → rendering (exponential v) v.
Proof.
  intros Hv Hbound. unfold exponential.
  pose proof (strip_zeros_spec (Z.to_nat (Z.log2 v)) v 0 Hv ltac:(lia)) as Hstrip.
  destruct (strip_zeros _ v 0) as [s j]. cbn [fst snd] in Hstrip.
  destruct Hstrip as (Hs & Hj & Hval). rewrite Z.sub_0_r in Hval.
  assert (Hj400 : j <= 400).
  { destruct (decide (j <= 400)) as [|Hbig]; [done|]. exfalso.
    assert (10 ^ 400 <= 10 ^ j) by (apply Z.pow_le_mono_r; lia).
    assert (2 ^ 1024 < 10 ^ 400) by (by vm_compute).
    assert (10 ^ j <= v) by nia. lia. }
  destruct (decimal_digits_nonneg s ltac:(lia)) as (d & Hd & Hds & Hvalue).
  rewrite Hds. destruct (uint_head d Hd) as (a & rest & Hhead & Ha).
  rewrite Hhead.
  destruct (decimal_digits_nonneg (Z.of_nat (String.length rest) + j) ltac:(lia))
    as (dN & HdN & -> & HN).
  destruct no_digit_marks as (Hne & HnE & Hndot & Hnplus).
  assert (Hocc : ∀ c, no_digit c → occurs c (String a rest) = false).
  { intros c Hc. rewrite <- Hhead. by apply occurs_uint. }
  set (u := String a _ +:+ _).
  assert (Hfree : ∀ c, no_digit c → Ascii.eqb "." c = false → Ascii.eqb "e" c = false →
                       Ascii.eqb "+" c = false → occurs c u = false).
  { intros c Hc H1 H2 H3. apply occurs_exponential; auto. }
  split_and!.
  - unfold blank_free. pose proof Forall_no_digit_blanks as Hb. unfold BLANKS in *.
    repeat (apply list.Forall_cons in Hb as [? Hb]).
    repeat (apply list.Forall_cons; split; [by apply Hfree|]). done.
  - apply Hfree; [apply no_digit_comma|done..].
  - by exists a, (match rest with EmptyString => "" | _ => "." +:+ rest end
             +:+ "e+" +:+ NilEmpty.string_of_uint dN)%string.
  - unfold unsigned_value. rewrite lower_e_free by (by apply Hfree).
    subst u. set (m := String a _).
    change (m +:+ "e+" +:+ NilEmpty.string_of_uint dN)
      with (m +:+ String "e" ("+" +:+ NilEmpty.string_of_uint dN)).
    assert (Hm : occurs "e" m = false).
    { subst m. specialize (Hocc "e"%char Hne). cbn [occurs] in *.
      apply orb_false_iff in Hocc as [H1 H2]. rewrite H1. cbn [orb].
      destruct rest; [done|]. rewrite append_cons, append_nil. cbn [occurs] in *.
      by rewrite H2. }
    rewrite split_on_app by done.
    rewrite split_on_free
      by (rewrite append_cons, append_nil; cbn [occurs]; by rewrite occurs_uint).
    unfold exponent_value. rewrite append_cons, append_nil. cbn [signed].
    change (Ascii.eqb "+" "-") with false. change (Ascii.eqb "+" "+") with true.
    cbv iota. rewrite digits_value_uint by done. cbn [fmap option_fmap option_map mbind option_bind].
    rewrite HN.
    assert (Hdigits : digits_value (String a rest) = Some s).
    { rewrite <- Hhead, <- Hvalue. by apply digits_value_uint. }
    assert (Hmant : mantissa_value m = Some (s, Z.of_nat (String.length rest))).
    { subst m. unfold mantissa_value. specialize (Hocc "."%char Hndot).
      cbn [occurs] in Hocc. apply orb_false_iff in Hocc as [H1 H2].
      destruct rest as [|b rest].
      - rewrite split_on_free by (cbn [occurs]; by rewrite H1). by rewrite Hdigits.
      - rewrite append_cons, append_nil.
        change (String a (String "." (String b rest)))
          with (String a "" +:+ String "." (String b rest)).
        rewrite split_on_app by (cbn [occurs]; by rewrite H1).
        rewrite split_on_free by done.
        rewrite append_cons, append_nil. by rewrite Hdigits. }
    unfold scaled. rewrite Hmant. cbn [mbind option_bind].
    replace (Z.of_nat (String.length rest) + j - Z.of_nat (String.length rest)) with j by lia.
    rewrite (proj2 (Z.eqb_neq s 0)) by lia.
    rewrite (proj2 (Z.leb_le 0 j)) by lia. rewrite (proj2 (Z.leb_le j 400)) by lia.
    by rewrite Hval.
Qed.

(** What [Number::toString] writes for an integer that is a double: a
    sign and a literal that rounds to the integer. *)
Lemma number_to_string_rendering (z : Z) :
  is_double z = true →
  ∃ u v, number_to_string (Fin z) = (if z <? 0 then "-" else "") +:+ u
         ∧ rendering u v ∧ 0 <= v ∧ nearest_double v = Some (Z.abs z).
Proof.
  unfold is_double. intros Hz%bool_decide_eq_true. cbn [number_to_string].
  destruct (Z.abs z <=? 2 ^ 53) eqn:Esafe.
  - exists (decimal_digits (Z.abs z)), (Z.abs z).
    split_and!; [|apply rendering_digits; lia|lia|done].
    destruct (z <? 0) eqn:Eneg.
    + apply Z.ltb_lt in Eneg. rewrite decimal_digits_neg by done.
      by replace (Z.abs z) with (- z) by lia.
    + apply Z.ltb_ge in Eneg. by replace (Z.abs z) with z by lia.
  - apply Z.leb_gt in Esafe. rewrite Hz.
    pose proof (shortest_rounds _ Hz) as Hround.
    set (v := shortest (Z.abs z)) in *.
    assert (Hv : 0 < v).
    { destruct (decide (0 < v)) as [|Hle]; [done|]. exfalso.
      unfold nearest_double in Hround.
      assert (0 < 2 ^ 53) by (by apply Z.pow_pos_nonneg).
      rewrite (proj2 (Z.ltb_lt v (2 ^ 53))) in Hround by lia.
      injection Hround as Hround. lia. }
    destruct (v <? 10 ^ 21).
    + exists (decimal_digits v), v. split_and!; [done|apply rendering_digits; lia|lia|done].
    + exists (exponential v), v. split_and!; [done| |lia|done].
      apply rendering_exponential; [done|].
      by apply (nearest_double_bound v (Z.abs z)); [lia|].
Qed.

(** The reader of decimal literals reads every integer back from what
    [Number::toString] writes for it. *)
Lemma decimal_cell_reads_integers : reads_integers decimal_cell.
Proof.
  intros z Hz.
  destruct (number_to_string_rendering z Hz) as (u & v & -> & Hu & Hv & Hround).
  unfold decimal_cell. rewrite (literal_value_rendering (z <? 0) u v Hu).
  cbn [mbind option_bind]. unfold as_double.
  destruct (z <? 0) eqn:Eneg.
  - apply Z.ltb_lt in Eneg.
    replace (Z.abs (- v)) with v by lia. rewrite Hround.
    cbn [fmap option_fmap option_map]. do 2 f_equal.
    assert (0 < v).
    { destruct (decide (0 < v)) as [|Hle]; [done|]. exfalso.
      replace v with 0 in Hround by lia. cbn in Hround. injection Hround. lia. }
    destruct v; [lia| |lia]. cbn [Z.opp Z.sgn]. lia.
  - apply Z.ltb_ge in Eneg.
    replace (Z.abs v) with v by lia. rewrite Hround.
    cbn [fmap option_fmap option_map]. do 2 f_equal.
    destruct v as [|p|p]; [|cbn [Z.sgn]; lia|lia].
    cbn in Hround. injection Hround. lia.
Qed.

(** *** Tables *)

Lemma split_on_concat (c : ascii) (parts : list string) :
  parts ≠ [] → Forall (λ p, occurs c p = false) parts →
  split_on c (String.concat (String c "") parts) = parts.
Proof.
  induction parts as [|x [|y parts] IH]; [done| |].
  - intros _ Hx%Forall_inv. by apply split_on_free.
  - intros _ Hall. inversion Hall as [|? ? Hx Hrest]; subst.
    cbn [String.concat]. rewrite append_cons, append_nil.
    rewrite split_on_app by done. f_equal. by apply IH.
Qed.

Lemma occurs_concat (c : ascii) (sep : string) (parts : list string) :
  occurs c sep = false → Forall (λ p, occurs c p = false) parts →
  occurs c (String.concat sep parts) = false.
Proof.
  intros Hsep. induction parts as [|x [|y parts] IH]; [done| |].
  - by intros Hx%Forall_inv.
  - intros Hall. inversion Hall as [|? ? Hx Hrest]; subst.
    cbn [String.concat]. rewrite !occurs_app, Hx, Hsep. by apply IH.
Qed.

(** What is written for an integer holds no delimiter. *)
Lemma plain_number (z : Z) : is_double z = true → plain (number_to_string (Fin z)) = true.
Proof.
  intros Hz.
  destruct (number_to_string_rendering z Hz) as (u & v & -> & (Hblank & Hcomma & _) & _).
  assert (Hnewline : occurs NEWLINE u = false).
  { unfold blank_free, BLANKS in Hblank. rewrite !list.Forall_cons in Hblank. tauto. }
  unfold plain. rewrite !occurs_app, Hcomma, Hnewline. by destruct (z <? 0).
Qed.

Section Tables.
Variable numeric : string → option num.
Hypothesis numeric_reads_integers : reads_integers numeric.

Lemma plain_render (v : jsval) :
  storable numeric v = true → plain (csv_render v) = true.
Proof.
  destruct v as [|s|[z|]]; simpl; [done| | |done].
  - by intros [H _]%andb_true_iff.
  - apply plain_number.
Qed.

Lemma cast_render (v : jsval) :
  storable numeric v = true → csv_cast numeric (csv_render v) = reread numeric v.
Proof.
  destruct v as [|s|[z|]]; cbn [storable csv_render reread]; [done|..|done].
  - intros [_ Hnum%bool_decide_eq_true]%andb_true_iff. unfold csv_cast. by rewrite Hnum.
  - intros Hz. unfold csv_cast. by rewrite (numeric_reads_integers z Hz).
Qed.

Lemma obj_set_fresh (k : string) (v : jsval) (o : obj) :
  k ∉ o.*1 → obj_set k v o = o ++ [(k, v)].
Proof.
  induction o as [|[k' v'] o IH]; [done|]. cbn [obj_set fmap list_fmap fst].
  intros [Hne Hk]%not_elem_of_cons.
  rewrite (proj2 (String.eqb_neq k' k)) by done. by rewrite IH.
Qed.

Lemma csv_record_zip (keys : list string) (cells : list jsval) :
  NoDup keys → csv_record keys cells = zip keys cells.
Proof.
  unfold csv_record. intros Hkeys.
  enough (H : ∀ acc : obj, NoDup (acc.*1 ++ keys) →
            foldl (λ o kv, obj_set kv.1 kv.2 o) acc (zip keys cells)
            = acc ++ zip keys cells)
    by (apply (H []); done).
  clear Hkeys. revert cells.
  induction keys as [|k keys IH]; intros cells acc Hnd.
  - by rewrite app_nil_r.
  - destruct cells as [|v cells]; [by rewrite app_nil_r|].
    cbn [zip zip_with foldl fst snd].
    apply list.NoDup_app in Hnd as (Hacc & Hdisj & Hks).
    apply list.NoDup_cons in Hks as [Hk Hks].
    rewrite obj_set_fresh.
    + rewrite IH.
      * by rewrite <- app_assoc.
      * rewrite fmap_app. cbn [fmap list_fmap fst]. rewrite <- app_assoc.
        apply list.NoDup_app. split_and!; [done| |by apply list.NoDup_cons].
        exact Hdisj.
    + intros Hin. apply (Hdisj k Hin), list_elem_of_here.
Qed.

Lemma plain_comma (s : string) : plain s = true → occurs COMMA s = false.
Proof. unfold plain. intros [H _]%andb_true_iff. by apply negb_true_iff. Qed.

Lemma plain_newline (s : string) : plain s = true → occurs NEWLINE s = false.
Proof. unfold plain. intros [_ H]%andb_true_iff. by apply negb_true_iff. Qed.

Lemma line_of_cells (keys : list string) (record : obj) :
  keys ≠ [] → shaped numeric keys record →
  split_on COMMA (line_of record) = csv_render ∘ snd <$> record.
Proof.
  intros Hkeys [Hshape Hvalues]. unfold line_of.
  apply (split_on_concat COMMA).
  - destruct record; [|done]. by subst keys.
  - apply Forall_fmap. eapply list.Forall_impl; [exact Hvalues|].
    intros kv Hkv. by apply plain_comma, plain_render.
Qed.

Lemma line_of_newline (keys : list string) (record : obj) :
  shaped numeric keys record → occurs NEWLINE (line_of record) = false.
Proof.
  intros [_ Hvalues]. apply occurs_concat; [done|].
  apply Forall_fmap. eapply list.Forall_impl; [exact Hvalues|].
  intros kv Hkv. by apply plain_newline, plain_render.
Qed.

Lemma reread_record (keys : list string) (record : obj) :
  NoDup keys → shaped numeric keys record →
  csv_record keys (csv_cast numeric <$> (csv_render ∘ snd <$> record))
  = as_read numeric record.
Proof.
  intros Hkeys [<- Hvalues]. rewrite csv_record_zip by done. clear Hkeys.
  unfold as_read.
  induction Hvalues as [|[k v] record Hv _ IH]; [done|].
  cbn [fmap list_fmap zip zip_with fst snd compose prod_map id].
  cbn [fmap] in IH. rewrite IH. simpl in Hv. by rewrite (cast_render v Hv).
Qed.

Lemma csv_rows_lines (keys : list string) (records : list obj) :
  keys ≠ [] → NoDup keys → Forall (shaped numeric keys) records →
  csv_rows numeric keys (line_of <$> records) = Ok (as_read numeric <$> records).
Proof.
  intros Hne Hkeys Hall.
  induction Hall as [|record records Hrecord _ IH]; [done|].
  cbn [fmap list_fmap csv_rows]. cbn [fmap] in IH.
  rewrite (line_of_cells keys record Hne Hrecord), IH.
  rewrite !length_fmap. destruct Hrecord as [Hshape Hvalues].
  rewrite <- Hshape at 1. rewrite length_fmap, Nat.eqb_refl.
  by rewrite (reread_record keys record Hkeys (conj Hshape Hvalues)).
Qed.

Lemma reread_present (record : obj) :
  Forall (λ kv, kv.2 ≠ VUndef) record → as_read numeric record = record.
Proof.
  intros Hall. unfold as_read. rewrite <- (list_fmap_id record) at 2.
  apply Forall_fmap_ext_1. eapply list.Forall_impl; [exact Hall|].
  intros [k v] Hv. simpl in *. by destruct v.
Qed.

Lemma csv_parse_stringify (keys : list string) (records : list obj) :
  keys ≠ [] → NoDup keys → Forall (λ k, plain k = true) keys →
  Forall (shaped numeric keys) records →
  csv_parse numeric (csv_stringify records) = Ok (as_read numeric <$> records).
Proof.
  intros Hne Hkeys Hplain Hall.
  destruct records as [|first rest]; [done|].
  unfold csv_parse, csv_stringify.
  change (λ record : obj, String.concat "," (csv_render ∘ snd <$> record)) with line_of.
  assert (Hfirst : first.*1 = keys).
  { apply list.Forall_cons in Hall as [[H _] _]. exact H. }
  rewrite Hfirst. unfold LF.
  rewrite (split_on_concat NEWLINE); [| done |].
  - change (String.concat "," keys) with (String.concat (String COMMA "") keys).
    rewrite (split_on_concat COMMA keys Hne).
    + by apply csv_rows_lines.
    + eapply list.Forall_impl; [exact Hplain|]. intros k. apply plain_comma.
  - apply list.Forall_cons. split.
    + apply occurs_concat; [done|].
      eapply list.Forall_impl; [exact Hplain|]. intros k. apply plain_newline.
    + apply Forall_fmap. eapply list.Forall_impl; [exact Hall|].
      intros record. apply line_of_newline.
Qed.
End Tables.

Lemma as_read_emptied (numeric : string → option num) (record : obj) :
  numeric "" = None → as_read numeric record = emptied record.
Proof.
  intros Hempty. unfold emptied, as_read. apply list_fmap_ext. intros _ [k v] _.
  destruct v; [|done..]. cbn. unfold csv_cast. by rewrite Hempty.
Qed.

(** A one-cell table whose cell is a string. *)
Lemma csv_parse_cell (numeric : string → option num) (k s : string) :
  plain k = true → plain s = true →
  csv_parse numeric (csv_stringify [[(k, VStr s)]]) = Ok [[(k, csv_cast numeric s)]].
Proof.
  intros Hk Hs. unfold csv_stringify, csv_parse.
  cbn [fmap list_fmap fst snd compose String.concat csv_render].
  change (k +:+ LF +:+ s) with (k +:+ String NEWLINE s).
  rewrite split_on_app by (by apply plain_newline).
  rewrite (split_on_free NEWLINE s) by (by apply plain_newline).
  rewrite (split_on_free COMMA k) by (by apply plain_comma).
  cbn [csv_rows]. rewrite (split_on_free COMMA s) by (by apply plain_comma). done.
Qed.

(** C4 (as the codec has it). For a codec whose cast reads an integer
    back from what is written for it, and a table with at least one column,
    whose column names are distinct and hold neither comma nor line feed,
    and whose cells are integers, strings that hold neither comma nor line
    feed and that the cast does not read as a number, or absent: parsing the
    serialisation returns the records in order with every absent cell turned
    into what the cast makes of an empty cell, the empty string when it
    leaves the empty cell a string; when no cell is absent it returns the
    records.  A string cell that the cast reads as a number comes back as
    that number. *)
Theorem csv_roundtrip (numeric : string → option num) (keys : list string)
    (records : list obj) :
  reads_integers numeric →
  keys ≠ [] → NoDup keys → Forall (λ k, plain k = true) keys →
  Forall (shaped numeric keys) records →
  csv_parse numeric (csv_stringify records) = Ok (as_read numeric <$> records)
  ∧ (numeric "" = None →
     csv_parse numeric (csv_stringify records) = Ok (emptied <$> records))
  ∧ (Forall (Forall (λ kv, kv.2 ≠ VUndef)) records →
     csv_parse numeric (csv_stringify records) = Ok records)
  ∧ (∀ k s n, plain k = true → plain s = true → numeric s = Some n →
       csv_parse numeric (csv_stringify [[(k, VStr s)]]) = Ok [[(k, VNum n)]]).
Proof.
  intros Hreads Hne Hkeys Hplain Hall.
  pose proof (csv_parse_stringify numeric Hreads keys records Hne Hkeys Hplain Hall)
    as Hparse.
  split_and!; [exact Hparse| | |].
  - intros Hempty. rewrite Hparse. f_equal. apply list_fmap_ext.
    intros _ record _. by apply as_read_emptied.
  - intros Hpresent. rewrite Hparse. f_equal.
    rewrite <- (list_fmap_id records) at 2.
    apply Forall_fmap_ext_1. eapply list.Forall_impl; [exact Hpresent|].
    intros record. apply reread_present.
  - intros k s n Hk Hs Hn. rewrite csv_parse_cell by done.
    unfold csv_cast. by rewrite Hn.
Qed.

Lemma obj_get_app_r (k : string) (o1 o2 : obj) :
  k ∉ o1.*1 → obj_get k (o1 ++ o2) = obj_get k o2.
Proof.
  induction o1 as [|[k' v'] o1 IH]; [done|]. cbn [fmap list_fmap fst app obj_get].
  intros [Hne Hk]%not_elem_of_cons.
  rewrite (proj2 (String.eqb_neq k' k)) by done. by apply IH.
Qed.

Lemma obj_rest_fresh (ks : list string) (o : obj) :
  (∀ k, k ∈ o.*1 → k ∉ ks) → obj_rest ks o = o.
Proof.
  unfold obj_rest. induction o as [|[k v] o IH]; [done|].
  intros Hfresh. rewrite filter_cons_True.
  - f_equal. apply IH. intros k' Hk'. apply Hfresh. by apply list_elem_of_further.
  - apply Hfresh. apply list_elem_of_here.
Qed.

Section Storage.
Variable numeric : string → option num.
Hypothesis numeric_reads_integers : reads_integers numeric.
Hypothesis numeric_empty : numeric "" = None.

Lemma or_undefined_reread (v : jsval) :
  optional_ok numeric v → or_undefined (reread numeric v) = v.
Proof.
  intros [->|[_ Hv]].
  - cbn. unfold csv_cast. by rewrite numeric_empty.
  - destruct v; [done|..]; simpl; unfold or_undefined; by rewrite Hv.
Qed.

Lemma normalise_as_read (keys : list string) (r : RobotData) :
  (∀ k, k ∈ keys → k ∉ OPTIONAL) → storable_robot numeric keys r →
  normalise (as_read numeric (to_obj r)) = r.
Proof.
  intros Hkeys (Hshape & Hvalues & Hu & Hs & He).
  assert (Hreq : as_read numeric (required r) = required r).
  { apply reread_present. eapply list.Forall_impl; [exact Hvalues|]. by intros kv [_ ?]. }
  assert (Hfresh : ∀ k, k ∈ OPTIONAL → k ∉ (required r).*1).
  { intros k Hk Hin. rewrite Hshape in Hin. by apply (Hkeys k Hin). }
  assert (Hread : as_read numeric (to_obj r)
                  = required r ++ [("used_by", reread numeric (used_by r));
                                   ("start_time", reread numeric (start_time r));
                                   ("end_time", reread numeric (end_time r))]).
  { unfold as_read, to_obj in *. by rewrite fmap_app, Hreq. }
  rewrite Hread. unfold normalise.
  rewrite !obj_get_app_r by (apply Hfresh; unfold OPTIONAL; find_elem).
  cbn [obj_get]. rewrite !String.eqb_refl. simpl String.eqb. cbn iota.
  rewrite !or_undefined_reread by done.
  destruct r as [req ub st et]. cbn [required] in *. f_equal.
  unfold obj_rest. rewrite list.filter_app.
  assert (Hrest : obj_rest OPTIONAL req = req).
  { apply obj_rest_fresh. intros k Hk. rewrite Hshape in Hk. by apply Hkeys. }
  unfold obj_rest, OPTIONAL in Hrest. rewrite Hrest.
  trans (req ++ []); [by f_equal|apply app_nil_r].
Qed.

(** Writing the records out and loading them again gives the same
    records, for ids, aliases and types that the codec does not read as
    numbers and that hold no delimiter, and reservations with such a user
    and non-zero times. *)
Theorem parseRobotData_stringify (keys : list string) (d : list RobotData) :
  NoDup keys → Forall (λ k, plain k = true) keys →
  (∀ k, k ∈ keys → k ∉ OPTIONAL) →
  Forall (storable_robot numeric keys) d →
  parseRobotData (codec numeric) (stringify (codec numeric) (to_obj <$> d)) = Ok d.
Proof.
  intros Hnd Hplain Hkeys Hall. unfold parseRobotData. cbn [parse stringify codec].
  rewrite (csv_parse_stringify numeric numeric_reads_integers (keys ++ OPTIONAL)
             (to_obj <$> d)).
  - f_equal. rewrite <- !list_fmap_compose. rewrite <- (list_fmap_id d) at 2.
    apply Forall_fmap_ext_1. eapply list.Forall_impl; [exact Hall|].
    intros r Hr. simpl. by apply (normalise_as_read keys).
  - by destruct keys.
  - apply list.NoDup_app. split_and!; [done|exact Hkeys|].
    apply (bool_decide_unpack _). exact I.
  - apply Forall_app. split; [done|]. unfold OPTIONAL. by repeat constructor.
  - apply Forall_fmap. eapply list.Forall_impl; [exact Hall|].
    intros r (Hshape & Hvalues & Hu & Hs & He). split.
    + unfold to_obj. rewrite fmap_app, Hshape. done.
    + unfold to_obj. apply Forall_app. split.
      * eapply list.Forall_impl; [exact Hvalues|]. by intros kv [? _].
      * assert (Hok : ∀ v, optional_ok numeric v → storable numeric v = true).
        { intros v [->|[? _]]; done. }
        repeat (constructor; [by apply Hok|]). constructor.
Qed.
End Storage.

(** ** Concrete runs *)

(** C1, the boundary and beyond. A reservation whose [end_time] is exactly
    the clock reading survives the expiry pass: [used_by] is still set
    although [end_time <= now].  So does a reservation without an
    [end_time], and one whose [end_time] lies before the earliest date:
    both read as an invalid date, which is never before now. *)
Lemma clearExpired_at_deadline :
  let s := manager_holding (λ _, 2000) [R2_bob; R4_open; R5_far] in
  let s' := (checkAndClearExpiredRobots no_date_parse s).2 in
  data s' = [R2_bob; R4_open; R5_far]
  ∧ (truthy (used_by R2_bob) = true
     ∧ end_time R2_bob = VNum (Fin 2000)
     ∧ 2000 <= clock s (ticks s))
  ∧ (truthy (used_by R4_open) = true ∧ end_time R4_open = VUndef)
  ∧ (truthy (used_by R5_far) = true
     ∧ end_time R5_far = VNum (Fin (-8640000000000001))
     ∧ -8640000000000001 <= clock s (ticks s)).
Proof.
  cbv zeta. split_and!; try done; vm_compute; discriminate.
Qed.

(** C2 at a clock tick. Reserving [R1] for 30 minutes while the clock moves
    from 22:14:59.999 to 22:15:00.000 between the two readings of
    [makeDurationTime] stores a reservation of 1740001 ms, not 30 * 60000. *)
Lemma reservation_over_a_tick :
  let s := manager_holding ticking [R1_free] in
  let s' := (useRobotById spec_parser utc no_date_parse (VStr "R1") (VStr "alice")
               (Some (Fin 30)) s).2 in
  data s' = [robot_record "R1" "a1" "arm" (VStr "alice") (VNum (Fin 1700000099999))
               (VNum (Fin 1700001840000))]
  ∧ 1700001840000 - 1700000099999 = 1740001
  ∧ 1740001 ≠ 30 * 60000
  ∧ written s' = [HEADER +:+ LF +:+ "R1,a1,arm,alice,1700000099999,1700001840000"].
Proof. cbv zeta. split_and!; [by vm_compute|done|done|by vm_compute]. Qed.

(** The same from the command line: the line printed for the new
    reservation shows 29 minutes and a second. *)
Lemma main_reservation_over_a_tick :
  let s := mkState (Some (HEADER +:+ LF +:+ "R1,a1,arm,,,")) true ticking_after_load
             0 [] [] [] in
  let s' := (main spec_parser utc no_date_parse decimal
               ["node"; "robot_manager"; "use_robot_by_id"; "R1"; "alice"; "30"] s).2 in
  stdout s' = ["[arm] R1(a1) is used by 💎alice💎 22:14:59 - 22:44:00"]
  ∧ file s' = Some (HEADER +:+ LF +:+ "R1,a1,arm,alice,1700000099999,1700001840000").
Proof. cbv zeta. split; by vm_compute. Qed.

(** With a still clock, half an hour before summer time ends: a 60-minute
    reservation made at 01:30 local time ends at 02:30 local time, two
    hours later. *)
Lemma reservation_over_summer_end :
  let t := summer_end - 30 * msPerMinute in
  let s' := (useRobotById spec_parser summer_zone no_date_parse (VStr "R1") (VStr "alice")
               (Some (Fin 60)) (manager_holding (λ _, t) [R1_free])).2 in
  data s' = [robot_record "R1" "a1" "arm" (VStr "alice") (VNum (Fin t))
               (VNum (Fin (t + 120 * msPerMinute)))]
  ∧ stdout s' = ["[arm] R1(a1) is used by 💎alice💎 01:30:00 - 02:30:00"].
Proof. cbv zeta. split; by vm_compute. Qed.


(** The same from the command line, through [loadData] and the dispatcher. *)
Lemma main_reserve_without_user :
  let s := mkState (Some (HEADER +:+ LF +:+ "R1,a1,arm,,,")) true steady 0 [] [] [] in
  let s' := (main spec_parser utc no_date_parse decimal
               ["node"; "robot_manager"; "use_robot_by_id"; "R1"] s).2 in
  data s' = [robot_record "R1" "a1" "arm" VUndef (VNum (Fin 1700000100000))
               (VNum (Fin 1700003700000))]
  ∧ stdout s' = ["[arm] R1(a1) is not used"].
Proof. cbv zeta. split; by vm_compute. Qed.

(** A reservation made for the empty user name is written with an empty
    [used_by] cell, and the next load reads a record that has no [used_by]
    but both times. *)
Lemma reload_after_empty_user :
  let s := mkState (Some (HEADER +:+ LF +:+ "R1,a1,arm,,,")) true steady 0 [] [] [] in
  let s' := (main spec_parser utc no_date_parse decimal
               ["node"; "robot_manager"; "use_robot_by_id"; "R1"; ""] s).2 in
  file s' = Some (HEADER +:+ LF +:+ "R1,a1,arm,,1700000100000,1700003700000")
  ∧ data (loadData spec_parser no_date_parse s').2
    = [robot_record "R1" "a1" "arm" VUndef (VNum (Fin 1700000100000))
         (VNum (Fin 1700003700000))].
Proof. cbv zeta. split; by vm_compute. Qed.

(** C7 on a fleet whose only arm is taken. *)
Lemma useRobotByType_unavailable_witness :
  useRobotByType spec_parser utc no_date_parse (VStr "arm") (VStr "carol") None
    (manager_holding ticking [R2_bob])
  = (Ok tt, printed "availableRobot is not found" (manager_holding ticking [R2_bob])).
Proof.
  refine (proj1 (useRobotByType_unavailable spec_parser utc no_date_parse "arm"
                   (VStr "carol") None (manager_holding ticking [R2_bob]) _)).
  intros r Hr _. apply list_elem_of_singleton in Hr. subst r. reflexivity.
Defined.

(** C3 on the reserved [R2]. *)
Lemma reserved_robot_rejected_witness :
  useRobotById spec_parser utc no_date_parse (VStr "R2") (VStr "carol") (Some (Fin 30))
    (manager_holding ticking [R1_free; R2_bob])
  = (Ok tt, printed "[arm] R2(a2) is used by 💎bob💎 00:00:01 - 00:00:02"
              (manager_holding ticking [R1_free; R2_bob])).
Proof.
  refine (proj1 (reserved_robot_rejected spec_parser utc no_date_parse "R2" (VStr "carol")
                   (Some (Fin 30)) (manager_holding ticking [R1_free; R2_bob]) 1 R2_bob
                   eq_refl eq_refl) eq_refl _).
  intros [|j] r' Hj Hr'; [|lia].
  injection Hr' as <-. discriminate.
Defined.

(** C6 on the stale storage: the expired [R2] is cleared and the file is
    rewritten. *)
Lemma loadData_writes_iff_cleared_witness :
  (loadData spec_parser no_date_parse stale_storage).1 = Ok tt
  ∧ data (loadData spec_parser no_date_parse stale_storage).2
    = [R1_free; robot_record "R2" "a2" "arm" VUndef VUndef VUndef]
  ∧ written (loadData spec_parser no_date_parse stale_storage).2
    = [HEADER +:+ LF +:+ "R1,a1,arm,,," +:+ LF +:+ "R2,a2,arm,,,"].
Proof.
  pose proof (loadData_writes_iff_cleared spec_parser no_date_parse stale_storage
                _ _ eq_refl eq_refl eq_refl) as (Hok & Hdata & Hwrites & _).
  split; [exact Hok|]. split; [exact Hdata|].
  refine (proj1 (Hwrites _)).
  exists R2_bob. split; [|reflexivity].
  apply list_elem_of_further, list_elem_of_here.
Defined.

(** C9 on a command that does not exist, after a load that went through. *)
Lemma main_unknown_command_throws_witness :
  main spec_parser utc no_date_parse decimal ["node"; "robot_manager"; "release"]
    stale_storage
  = (Throw (Error "unavailable function name"),
     (loadData spec_parser no_date_parse stale_storage).2).
Proof.
  refine (proj1 (main_unknown_command_throws spec_parser utc no_date_parse decimal
                   ["node"; "robot_manager"; "release"] stale_storage) _).
  unfold commands. rewrite !not_elem_of_cons.
  split_and!; try discriminate. apply not_elem_of_nil.
Defined.

(** C9 before the load. With no storage file, or with one whose row is
    shorter than its header, the same unknown command ends in the error of
    the load, not in "unavailable function name". *)
Lemma main_unknown_command_failed_load :
  let missing := mkState None true steady 0 [] [] [] in
  let malformed := mkState (Some (HEADER +:+ LF +:+ "R1,a1")) true steady 0 [] [] [] in
  (argument ["node"; "robot_manager"; "release"] 2 ∉ commands)
  ∧ main spec_parser utc no_date_parse decimal ["node"; "robot_manager"; "release"] missing
    = (Throw IOError, missing)
  ∧ main spec_parser utc no_date_parse decimal ["node"; "robot_manager"; "release"] malformed
    = (Throw FormatError, malformed)
  ∧ IOError ≠ Error "unavailable function name"
  ∧ FormatError ≠ Error "unavailable function name".
Proof.
  cbv zeta. split_and!; [|done..].
  unfold commands. rewrite !not_elem_of_cons.
  split_and!; try discriminate. apply not_elem_of_nil.
Qed.

(** C10 on a row with an empty [used_by] and a stored time of [0]: the
    record that is loaded is the free [R1]. *)
Lemma falsy_cells_parse_as_absent_witness :
  parseRobotData spec_parser (HEADER +:+ LF +:+ "R1,a1,arm,,0,") = Ok [R1_free].
Proof.
  exact (proj1 (falsy_cells_parse_as_absent spec_parser utc no_date_parse
                  (mkState (Some (HEADER +:+ LF +:+ "R1,a1,arm,,0,")) true steady 0 [] [] [])
                  _ _ eq_refl eq_refl)).
Defined.

(** C4 on tables that do not come back.  An id that is the string "007"
    returns from the file as the number 7, which is written out as "7": not
    the record that went in, nor one that serialises like it.  A comma in a
    value or in a column name gives rows and header different lengths, and
    the text is refused; a line feed in a value or in a column name makes two
    rows of one; a record with no column is written as two empty lines, which
    read as one record with an empty name and an empty value.  In the model,
    a list that names a property twice comes back with the later value only
    (an object has each name once), and an integer that no double holds comes
    back as the double nearest to it (a number of JavaScript is a double). *)
Lemma csv_roundtrip_numeric_string :
  let records := [[("id", VStr "007"); ("alias", VStr "a1")]] in
  let reloaded := [[("id", VNum (Fin 7)); ("alias", VStr "a1")]] in
  (csv_stringify records = "id,alias" +:+ LF +:+ "007,a1"
   ∧ csv_parse decimal_cell (csv_stringify records) = Ok reloaded
   ∧ csv_parse decimal_cell (csv_stringify records) ≠ Ok records
   ∧ csv_stringify reloaded = "id,alias" +:+ LF +:+ "7,a1"
   ∧ csv_stringify reloaded ≠ csv_stringify records)
  ∧ csv_parse decimal_cell (csv_stringify [[("id", VStr "R1"); ("alias", VStr "a,1")]])
    = Throw FormatError
  ∧ csv_parse decimal_cell (csv_stringify [[("id", VStr ("R1" +:+ LF +:+ "R2"))]])
    = Ok [[("id", VStr "R1")]; [("id", VStr "R2")]]
  ∧ csv_parse decimal_cell (csv_stringify [[("id,alias", VStr "R1")]]) = Throw FormatError
  ∧ csv_parse decimal_cell (csv_stringify [[("id" +:+ LF +:+ "alias", VStr "R1")]])
    = Ok [[("id", VStr "alias")]; [("id", VStr "R1")]]
  ∧ csv_parse decimal_cell (csv_stringify [[]]) = Ok [[("", VStr "")]]
  ∧ csv_parse decimal_cell (csv_stringify [[("id", VStr "R1"); ("id", VStr "R2")]])
    = Ok [[("id", VStr "R2")]]
  ∧ csv_parse decimal_cell (csv_stringify [[("id", VNum (Fin 9007199254740993))]])
    = Ok [[("id", VNum (Fin 9007199254740992))]].
Proof.
  cbv zeta. split_and!; [done|done| |done| |done..]; vm_compute; discriminate.
Qed.

(** The same through the manager: the robot with id "007" is reloaded with
    the number 7 as its id. *)
Lemma storage_renumbers_ids :
  parseRobotData spec_parser
    (stringify spec_parser (to_obj <$> [robot_record "007" "a1" "arm" VUndef VUndef VUndef]))
  = Ok [mkRobot [("id", VNum (Fin 7)); ("alias", VStr "a1"); ("type", VStr "arm")]
          VUndef VUndef VUndef].
Proof. done. Qed.

(** C4 on a free and a reserved robot, read by the codec of decimal
    literals. *)
Lemma csv_roundtrip_witness :
  csv_parse decimal_cell
    (csv_stringify
       [[("id", VStr "R1"); ("used_by", VUndef); ("end_time", VUndef)];
        [("id", VStr "R2"); ("used_by", VStr "bob"); ("end_time", VNum (Fin 2000))]])
  = Ok [[("id", VStr "R1"); ("used_by", VStr ""); ("end_time", VStr "")];
        [("id", VStr "R2"); ("used_by", VStr "bob"); ("end_time", VNum (Fin 2000))]].
Proof.
  refine (proj1 (csv_roundtrip decimal_cell ["id"; "used_by"; "end_time"] _
                   decimal_cell_reads_integers _ _ _ _)).
  - discriminate.
  - apply (bool_decide_unpack _). exact I.
  - repeat constructor.
  - repeat constructor.
Defined.

(** ** Records and their objects *)

Lemma or_undefined_absent_or_set (v : jsval) : absent_or_set v → or_undefined v = v.
Proof. intros [->|Hv]; [done|]. unfold or_undefined. by rewrite Hv. Qed.

Lemma normalise_to_obj (r : RobotData) : well_parsed r → normalise (to_obj r) = r.
Proof.
  intros (Hu & Hs & He & Hkeys). unfold normalise, to_obj.
  rewrite !obj_get_app_r by (apply Hkeys; unfold OPTIONAL; find_elem).
  cbn [obj_get]. rewrite !String.eqb_refl. simpl String.eqb. cbn iota.
  rewrite !or_undefined_absent_or_set by done.
  destruct r as [req ub st et]. cbn [required used_by start_time end_time] in *.
  f_equal. unfold obj_rest. rewrite list.filter_app.
  assert (Hrest : obj_rest OPTIONAL req = req).
  { apply obj_rest_fresh. intros k Hk Hopt. by apply (Hkeys k Hopt). }
  unfold obj_rest, OPTIONAL in Hrest. rewrite Hrest.
  trans (req ++ []); [by f_equal|apply app_nil_r].
Qed.

(** X15. The callback of [parseRobotData] undoes the object form of a
    record: applied to the object [{...required, used_by, start_time,
    end_time}] of a record whose optional fields are absent or truthy, it
    gives the record back.  Every record it builds is of that kind, so
    applying it to the object of its own result changes nothing. *)
Theorem normalise_round_trip :
  (∀ r, well_parsed r → normalise (to_obj r) = r)
  ∧ (∀ row, well_parsed (normalise row))
  ∧ (∀ row, normalise (to_obj (normalise row)) = normalise row).
Proof.
  split_and!.
  - apply normalise_to_obj.
  - apply well_parsed_normalise.
  - intros row. apply normalise_to_obj, well_parsed_normalise.
Qed.

(** ** Further runs *)

(** X3 on two arms and a drone. *)
Lemma printAllRobots_every_robot_once_witness :
  printAllRobots utc no_date_parse (manager_holding steady [R1_free; R3_drone; R2_bob])
  = (Ok tt, said ["[arm] R1(a1) is not used" +:+ LF
                    +:+ "[arm] R2(a2) is used by 💎bob💎 00:00:01 - 00:00:02";
                  "[drone] R3(a3) is not used"]
              (manager_holding steady [R1_free; R3_drone; R2_bob])).
Proof.
  refine (proj1 (printAllRobots_every_robot_once utc no_date_parse
                   (manager_holding steady [R1_free; R3_drone; R2_bob]) _)).
  intros r Hr.
  repeat (apply elem_of_cons in Hr as [->|Hr]; [discriminate|]).
  by apply elem_of_nil in Hr.
Defined.

(** X4 on a type no robot has. *)
Lemma main_check_commands_only_print_witness :
  main spec_parser utc no_date_parse decimal ["node"; "robot_manager"; "check_type"; "drone"]
    stale_storage
  = (Ok tt, printed "unavailable type: (drone) from [arm]"
              (loadData spec_parser no_date_parse stale_storage).2).
Proof.
  exact (proj2 (main_check_commands_only_print spec_parser utc no_date_parse decimal
                  ["node"; "robot_manager"; "check_type"; "drone"] stale_storage
                  (loadData spec_parser no_date_parse stale_storage).2 eq_refl) eq_refl).
Defined.

(** X5 on the stale storage. *)
Lemma loadData_well_parsed_witness :
  Forall well_parsed (data (loadData spec_parser no_date_parse stale_storage).2).
Proof.
  exact (loadData_well_parsed spec_parser no_date_parse stale_storage
           (loadData spec_parser no_date_parse stale_storage).2 eq_refl).
Defined.

(** X8 over the tick: the end is 29 minutes and a millisecond after the
    start. *)
Lemma makeDurationTime_fixed_zone_witness :
  makeDurationTime utc (Some (Fin 30)) (manager_holding ticking [])
  = (Ok (Fin 1700000099999, Fin 1700001840000),
     ticked (ticked (manager_holding ticking []))).
Proof.
  refine (proj1 (makeDurationTime_fixed_zone utc 0 30 (manager_holding ticking []) _)).
  reflexivity.
Defined.

(** X9 on the free [R1]. *)
Lemma useRobot_outcomes_witness :
  useRobot spec_parser utc no_date_parse 0 (VStr "alice") (Some (Fin 30))
    (manager_holding steady [R1_free])
  = (Ok tt,
     mkState (Some (HEADER +:+ LF +:+ "R1,a1,arm,alice,1700000100000,1700001900000"))
       true steady 2 ["[arm] R1(a1) is used by 💎alice💎 22:15:00 - 22:45:00"]
       [HEADER +:+ LF +:+ "R1,a1,arm,alice,1700000100000,1700001900000"]
       [robot_record "R1" "a1" "arm" (VStr "alice") (VNum (Fin 1700000100000))
          (VNum (Fin 1700001900000))]).
Proof.
  exact (proj1 (useRobot_outcomes spec_parser utc no_date_parse 0 (VStr "alice")
                  (Some (Fin 30)) (manager_holding steady [R1_free]) R1_free eq_refl)
           eq_refl).
Defined.

(** X10 by type, past a taken arm. *)
Lemma requests_reach_first_match_witness :
  useRobotByType spec_parser utc no_date_parse (VStr "arm") (VStr "alice") None
    (manager_holding steady [R2_bob; R1_free])
  = useRobot spec_parser utc no_date_parse 1 (VStr "alice") (Some (Fin 60))
      (manager_holding steady [R2_bob; R1_free]).
Proof.
  refine (proj2 (proj2 (requests_reach_first_match spec_parser utc no_date_parse "arm"
                          (VStr "alice") None (manager_holding steady [R2_bob; R1_free])
                          1 R1_free eq_refl eq_refl)) eq_refl _).
  intros [|j] r' Hj Hr'; [|lia].
  injection Hr' as <-. intros [_ Hfree]. discriminate.
Defined.

(** X11 on [R1], reserved by alice and then asked for by carol. *)
Lemma reserved_robot_is_taken_witness :
  ∃ r', data (useRobot spec_parser utc no_date_parse 0 (VStr "alice") None
                (manager_holding steady [R1_free])).2 !! 0%nat = Some r'
        ∧ used_by r' = VStr "alice".
Proof.
  destruct (reserved_robot_is_taken spec_parser utc no_date_parse "R1" (VStr "alice")
              (VStr "carol") None None (manager_holding steady [R1_free]) 0 R1_free
              eq_refl eq_refl) as (r' & Hr' & Huser & _).
  exists r'. split; [exact Hr'|exact Huser].
Defined.

(** X12 on two free arms: once the first is reserved, the second is the
    next one offered. *)
Lemma next_free_robot_is_later_witness :
  pickFreeRobot (VStr "arm")
    (data (useRobotByType spec_parser utc no_date_parse (VStr "arm") (VStr "alice") None
             (manager_holding steady [R1_free; R1_free])).2) = Some (1%nat, R1_free)
  ∧ (0 < 1)%nat ∧ [R1_free; R1_free] !! 1%nat = Some R1_free.
Proof.
  split; [reflexivity|].
  exact (next_free_robot_is_later spec_parser utc no_date_parse (VStr "arm") (VStr "alice")
           None (manager_holding steady [R1_free; R1_free]) 0 R1_free eq_refl eq_refl
           1%nat R1_free eq_refl).
Defined.

(** X13 with a negative duration: the reservation is gone after the next
    pass. *)
Lemma reservation_then_expiry_witness :
  data (checkAndClearExpiredRobots no_date_parse
          (useRobot spec_parser utc no_date_parse 0 (VStr "alice") (Some (Fin (-5)))
             (manager_holding steady [R1_free])).2).2 !! 0%nat
  = Some R1_free.
Proof.
  refine (proj1 (proj2 (proj2 (reservation_then_expiry spec_parser utc no_date_parse
                                 (VStr "alice") (-5) 0 (manager_holding steady [R1_free])
                                 0 R1_free eq_refl eq_refl _ eq_refl))) _ _ _).
  - reflexivity.
  - vm_compute. discriminate.
  - reflexivity.
  - vm_compute. discriminate.
Defined.
